(** * The lucky-draw redemption service (src/server.js)

    A shallow embedding of the two Express handlers of [src/server.js],
    [POST /check-order-number] and [POST /record-draw-result], over a model
    of the Firestore collections they use, followed by the properties of
    the redemption contract. *)

From stdpp Require Import gmap strings list fin_maps sorting.
From Stdlib Require Import ZArith Ascii.

Local Open Scope string_scope.
#[local] Set Warnings "-register-all".

(** ** JavaScript and Firestore values *)

(** Values of a parsed JSON body and of stored document fields.  [VUndefined]
    is what reading an absent property gives; [VTimestamp] is the value the
    store writes for a [serverTimestamp()] sentinel.  Numbers are the
    integer-valued ones. *)
Inductive value : Type :=
| VUndefined
| VNull
| VBool (b : bool)
| VNum (n : Z)
| VStr (s : string)
| VArr (items : list value)
| VObj (props : list (string * value))
| VTimestamp (t : nat).

(** Truthiness, as [!x] and [if (x)] see it: [undefined], [null], [false],
    [0] and the empty string are falsy, everything else (arrays and objects
    included, even empty ones) is truthy. *)
Definition truthy (v : value) : bool :=
  match v with
  | VUndefined | VNull => false
  | VBool b => b
  | VNum n => negb (n =? 0)%Z
  | VStr s => negb (String.eqb s "")
  | VArr _ | VObj _ | VTimestamp _ => true
  end.

(** Equality of the store's ['=='] filter: same type and same content;
    arrays element by element, maps property by property in any order. *)
Fixpoint value_eqb (a b : value) : bool :=
  match a, b with
  | VUndefined, VUndefined => true
  | VNull, VNull => true
  | VBool x, VBool y => Bool.eqb x y
  | VNum x, VNum y => (x =? y)%Z
  | VStr x, VStr y => String.eqb x y
  | VArr xs, VArr ys =>
      (fix items (xs ys : list value) : bool :=
         match xs, ys with
         | [], [] => true
         | x :: xs', y :: ys' => value_eqb x y && items xs' ys'
         | _, _ => false
         end) xs ys
  | VObj ps, VObj qs =>
      forallb (λ kx, existsb (λ ly, String.eqb kx.1 ly.1 && value_eqb kx.2 ly.2) qs) ps
      && forallb (λ ly, existsb (λ kx, String.eqb kx.1 ly.1 && value_eqb kx.2 ly.2) ps) qs
  | VTimestamp x, VTimestamp y => Nat.eqb x y
  | _, _ => false
  end.

(** A JavaScript object used as a record of named properties: the request
    body and the data of a stored document. *)
Abbreviation document := (gmap string value).

(** Property access [obj.name]: [undefined] when the property is absent. *)
Definition prop (obj : document) (name : string) : value :=
  default VUndefined (obj !! name).

(** ** What the SDK checks before it sends a request *)

(** [validateUserInput] of the SDK's serializer, on the values above: the
    argument of [where], [update] and [set] is walked before any request is
    made, and the call throws on a value more than [MAX_DEPTH] fields deep,
    on a map with an empty property name (the [FieldPath] of the property
    cannot be built) and on [undefined].  [size] is the length of the field
    path of [v].  The texts are the SDK's without the leading part that
    names the argument. *)
Definition MAX_DEPTH : nat := 20.

Fixpoint validateUserInput (size : nat) (v : value) {struct v} : option string :=
  if Nat.ltb MAX_DEPTH size then
    Some "Input object is deeper than 20 levels or contains a cycle."
  else
    match v with
    | VArr items =>
        (fix each (items : list value) : option string :=
           match items with
           | [] => None
           | x :: more =>
               match validateUserInput (S size) x with
               | Some msg => Some msg
               | None => each more
               end
           end) items
    | VObj props =>
        (fix each (props : list (string * value)) : option string :=
           match props with
           | [] => None
           | (k, x) :: more =>
               if String.eqb k "" then
                 Some "Element at index 0 should not be an empty string."
               else
                 match validateUserInput (S size) x with
                 | Some msg => Some msg
                 | None => each more
                 end
           end) props
    | VUndefined => Some "Cannot use undefined as a Firestore value."
    | _ => None
    end.

(** ** Document paths *)

Definition is_slash (c : ascii) : bool := Ascii.eqb c "/"%char.

Fixpoint contains_slash (s : string) : bool :=
  match s with
  | EmptyString => false
  | String c rest => is_slash c || contains_slash rest
  end.

(** [path.indexOf('//') >= 0]. *)
Fixpoint has_double_slash (s : string) : bool :=
  match s with
  | EmptyString => false
  | String a rest =>
      match rest with
      | EmptyString => false
      | String b _ => (is_slash a && is_slash b) || has_double_slash rest
      end
  end.

(** [path.split('/')]. *)
Fixpoint pieces (s : string) : list string :=
  match s with
  | EmptyString => [EmptyString]
  | String c rest =>
      if is_slash c then EmptyString :: pieces rest
      else match pieces rest with
           | p :: ps => String c p :: ps
           | [] => [String c EmptyString]
           end
  end.

(** The segments of a relative path: a slash at either end is allowed and
    yields no segment. *)
Definition segments (s : string) : list string :=
  filter (λ p, p ≠ EmptyString) (pieces s).

(** A document identifier: one segment, not empty. *)
Definition is_document_id (s : string) : bool :=
  negb (String.eqb s "") && negb (contains_slash s).

(** ** The document store *)

(** A collection maps document identifiers to document data.  The documents
    of its subcollections are kept in the same map, under their path
    relative to the collection ([A/B/C] is the document [C] of the
    subcollection [B] of the document [A]). *)
Abbreviation collection := (gmap string document).

Inductive collection_name : Type := orderNumbers | drawResults.

Record Store : Type := mkStore {
  order_numbers : collection;   (* db.collection('orderNumbers') *)
  draw_results : collection     (* db.collection('drawResults') *)
}.

Definition coll (c : collection_name) (s : Store) : collection :=
  match c with
  | orderNumbers => order_numbers s
  | drawResults => draw_results s
  end.

Definition with_coll (c : collection_name) (docs : collection) (s : Store) : Store :=
  match c with
  | orderNumbers => mkStore docs (draw_results s)
  | drawResults => mkStore (order_numbers s) docs
  end.

(** Data handed to a write: plain values, or the [serverTimestamp()]
    sentinel that the store replaces by its own clock when it commits. *)
Inductive field_value : Type :=
| Plain (v : value)
| ServerTimestamp.

Definition resolve (now : nat) (f : field_value) : value :=
  match f with
  | Plain v => v
  | ServerTimestamp => VTimestamp now
  end.

Definition resolve_data (now : nat) (data : list (string * field_value)) : document :=
  list_to_map (prod_map id (resolve now) <$> data).

(** The same check on the data of an [update] or a [set]: each field value
    is at a field path of length one; a sentinel passes. *)
Fixpoint validate_data (data : list (string * field_value)) : option string :=
  match data with
  | [] => None
  | (_, Plain v) :: more =>
      match validateUserInput 1 v with
      | Some msg => Some msg
      | None => validate_data more
      end
  | (_, ServerTimestamp) :: more => validate_data more
  end.

(** Documents of a snapshot come in document-identifier order. *)
Definition id_le (a b : string * document) : Prop := String.leb a.1 b.1 = true.

#[global] Instance id_le_dec a b : Decision (id_le a b).
Proof. unfold id_le. apply _. Defined.

Definition in_id_order (c : collection) : list (string * document) :=
  merge_sort id_le (map_to_list c).

(** [collection.where(field, '==', v).get()]: the matching documents of the
    collection itself, those of subcollections left out.  A value that
    [where] refuses makes no query and finds nothing. *)
Definition store_where (field : string) (v : value) (c : collection)
  : list (string * document) :=
  match validateUserInput 0 v with
  | Some _ => []
  | None =>
      filter (λ kd, is_document_id kd.1 = true ∧ value_eqb (prop kd.2 field) v = true)
        (in_id_order c)
  end.

(** [docRef.get()]: [None] stands for a snapshot with [exists = false]. *)
Definition store_get (id : string) (c : collection) : option document := c !! id.

(** [docRef.update(data)] changes the named fields of an existing document
    and is rejected when there is none. *)
Definition store_update (now : nat) (id : string) (data : list (string * field_value))
    (c : collection) : option collection :=
  match c !! id with
  | Some d => Some (<[id := resolve_data now data ∪ d]> c)
  | None => None
  end.

(** [docRef.set(data)] creates the document or replaces it whole. *)
Definition store_set (now : nat) (id : string) (data : list (string * field_value))
    (c : collection) : collection :=
  <[id := resolve_data now data]> c.

(** ** The world a request runs in *)

(** One entry per round trip to the store, failed ones included. *)
Inductive access : Type :=
| Queried (c : collection_name) (field : string) (v : value)
| Read (c : collection_name) (id : string)
| Updated (c : collection_name) (id : string)
| Written (c : collection_name) (id : string).

(** The store, its clock, the outcome of the round trips to come ([Some msg]:
    the store rejects that request with an error carrying [msg]; past the end
    of the list every request is served), and the accesses made so far. *)
Record World : Type := mkWorld {
  store : Store;
  now : nat;
  failures : list (option string);
  log : list access
}.

(** A round trip: it is logged, takes one tick of the store's clock and
    uses up the next outcome. *)
Definition tick (a : access) (w : World) : World :=
  mkWorld (store w) (S (now w)) (tail (failures w)) (log w ++ [a]).

Definition round_trip (a : access) (w : World) : option string * World :=
  (mjoin (head (failures w)), tick a w).

Definition commit (s : Store) (w : World) : World :=
  mkWorld s (now w) (failures w) (log w).

(** ** Handlers as programs over the store *)

(** The body of an [async] handler: it returns, throws, or awaits a store
    request and goes on with the answer. *)
Inductive action (A : Type) : Type :=
| Return (a : A)
| Throw (message : string)
| AwaitWhere (c : collection_name) (field : string) (v : value)
    (k : list (string * document) → action A)
| AwaitGet (c : collection_name) (id : string) (k : option document → action A)
| AwaitUpdate (c : collection_name) (id : string)
    (data : list (string * field_value)) (k : action A)
| AwaitSet (c : collection_name) (id : string)
    (data : list (string * field_value)) (k : action A).

Arguments Return {A} a.
Arguments Throw {A} message.
Arguments AwaitWhere {A} c field v k.
Arguments AwaitGet {A} c id k.
Arguments AwaitUpdate {A} c id data k.
Arguments AwaitSet {A} c id data k.

(** How an awaited request, or a whole handler body, ends. *)
Inductive outcome (A : Type) : Type :=
| Returned (a : A)
| Thrown (message : string).

Arguments Returned {A} a.
Arguments Thrown {A} message.

(** The four store requests of the handlers.  [where], [update] and [set]
    throw on an argument that does not pass the SDK's check, before anything
    is sent; a request that the store rejects changes nothing in the
    store. *)
Definition request_where (c : collection_name) (field : string) (v : value) (w : World)
  : outcome (list (string * document)) * World :=
  match validateUserInput 0 v with
  | Some msg => (Thrown msg, w)
  | None =>
      match round_trip (Queried c field v) w with
      | (Some msg, w') => (Thrown msg, w')
      | (None, w') => (Returned (store_where field v (coll c (store w'))), w')
      end
  end.

Definition request_get (c : collection_name) (id : string) (w : World)
  : outcome (option document) * World :=
  match round_trip (Read c id) w with
  | (Some msg, w') => (Thrown msg, w')
  | (None, w') => (Returned (store_get id (coll c (store w'))), w')
  end.

Definition request_update (c : collection_name) (id : string)
    (data : list (string * field_value)) (w : World) : outcome unit * World :=
  match validate_data data with
  | Some msg => (Thrown msg, w)
  | None =>
      match round_trip (Updated c id) w with
      | (Some msg, w') => (Thrown msg, w')
      | (None, w') =>
          match store_update (now w) id data (coll c (store w')) with
          | Some docs => (Returned (), commit (with_coll c docs (store w')) w')
          | None => (Thrown "No document to update", w')
          end
      end
  end.

Definition request_set (c : collection_name) (id : string)
    (data : list (string * field_value)) (w : World) : outcome unit * World :=
  match validate_data data with
  | Some msg => (Thrown msg, w)
  | None =>
      match round_trip (Written c id) w with
      | (Some msg, w') => (Thrown msg, w')
      | (None, w') =>
          (Returned (),
           commit (with_coll c (store_set (now w) id data (coll c (store w'))) (store w'))
             w')
      end
  end.

(** Runs a handler body to its end with no other request in between: a
    rejected [await] throws at that point. *)
Fixpoint exec {A} (p : action A) (w : World) : outcome A * World :=
  match p with
  | Return a => (Returned a, w)
  | Throw msg => (Thrown msg, w)
  | AwaitWhere c field v k =>
      match request_where c field v w with
      | (Returned docs, w') => exec (k docs) w'
      | (Thrown msg, w') => (Thrown msg, w')
      end
  | AwaitGet c id k =>
      match request_get c id w with
      | (Returned snapshot, w') => exec (k snapshot) w'
      | (Thrown msg, w') => (Thrown msg, w')
      end
  | AwaitUpdate c id data k =>
      match request_update c id data w with
      | (Returned _, w') => exec k w'
      | (Thrown msg, w') => (Thrown msg, w')
      end
  | AwaitSet c id data k =>
      match request_set c id data w with
      | (Returned _, w') => exec k w'
      | (Thrown msg, w') => (Thrown msg, w')
      end
  end.

(** Runs a handler body up to its next [await] only, which is where the
    event loop may serve another request; a finished body stays as it is.
    The SDK's check of the argument of a request, which the code runs into
    just before it awaits, is made here when the turn of that request
    starts; it reads and writes nothing in the store. *)
Definition resume {A} (p : action A) (w : World) : action A * World :=
  match p with
  | Return _ | Throw _ => (p, w)
  | AwaitWhere c field v k =>
      match request_where c field v w with
      | (Returned docs, w') => (k docs, w')
      | (Thrown msg, w') => (Throw msg, w')
      end
  | AwaitGet c id k =>
      match request_get c id w with
      | (Returned snapshot, w') => (k snapshot, w')
      | (Thrown msg, w') => (Throw msg, w')
      end
  | AwaitUpdate c id data k =>
      match request_update c id data w with
      | (Returned _, w') => (k, w')
      | (Thrown msg, w') => (Throw msg, w')
      end
  | AwaitSet c id data k =>
      match request_set c id data w with
      | (Returned _, w') => (k, w')
      | (Thrown msg, w') => (Throw msg, w')
      end
  end.

(** ** Responses *)

(** The JSON body of a response: [success] with either an [error] or a
    [message] property. *)
Inductive detail : Type :=
| error (text : string)
| message (text : string).

Record response : Type := mkResponse {
  status : nat;
  success : bool;
  info : detail
}.

(** [res.status(code).json({success, ...})]; [res.json] alone answers 200. *)
Definition json (code : nat) (ok : bool) (d : detail) : response := mkResponse code ok d.

(** ** The handlers of src/server.js *)

(** [orderData.hasPlayed] in a condition. *)
Definition hasPlayed (orderData : document) : bool := truthy (prop orderData "hasPlayed").

(** [db.collection(c).doc(orderNumber)]: the SDK takes its argument as a
    path relative to the collection.  It throws unless the argument is a
    non-empty string without [//]; it splits the string at the slashes,
    dropping empty segments, and throws unless the segments name a
    document, that is unless their number is odd.  The reference it returns
    is given here by the path of the document relative to the collection:
    [A100/] and [/A100] address the document [A100], [A/B/C] a document of
    a subcollection.  The texts of its errors are shortened. *)
Definition doc (orderNumber : value) : outcome string :=
  match orderNumber with
  | VStr path =>
      if String.eqb path "" then Thrown "Path must be a non-empty string."
      else if has_double_slash path then Thrown "Paths must not contain //."
      else
        let path_segments := segments path in
        if Nat.even (length path_segments) then
          Thrown "Your path does not contain an even number of components."
        else Returned (String.concat "/" path_segments)
  | _ => Thrown "Path must be a non-empty string."
  end.

(** The [try] block of [POST /check-order-number] (lines 35 to 56). *)
Definition check_order_number (body : document) : action response :=
  let orderNumber := prop body "orderNumber" in
  if negb (truthy orderNumber) then
    Return (json 400 false (error "Order number is required."))
  else
    AwaitWhere orderNumbers "orderNumber" orderNumber (fun querySnapshot =>
      match querySnapshot with
      | [] =>
          Return (json 404 false (message
            "Please input a qualified order number. Contact your sales representative for more information."))
      | docSnapshot :: _ =>
          let orderData := docSnapshot.2 in
          if hasPlayed orderData then
            Return (json 400 false (message "You have used your chance."))
          else
            Return (json 200 true (message "Order number is valid. Proceed with the draw."))
      end).

(** The [try] block of [POST /record-draw-result] (lines 66 to 96).  The
    two references, [docRef] of line 71 and [drawResultRef] of line 89, are
    made by [doc] of the same order number, each in its own collection: they
    have the same path [id], and the second call throws on nothing that the
    first has let through. *)
Definition record_draw_result (body : document) : action response :=
  let orderNumber := prop body "orderNumber" in
  let drawResult := prop body "drawResult" in
  if negb (truthy orderNumber) || negb (truthy drawResult) then
    Return (json 400 false (error "Order number and draw result are required."))
  else
    match doc orderNumber with
    | Thrown msg => Throw msg
    | Returned id =>
        AwaitGet orderNumbers id (fun docSnapshot =>
          match docSnapshot with
          | None => Return (json 404 false (message "Order number does not exist."))
          | Some orderData =>
              if hasPlayed orderData then
                Return (json 400 false (message "You have already used your chance."))
              else
                AwaitUpdate orderNumbers id
                  [("hasPlayed", Plain (VBool true)); ("drawResult", Plain drawResult)]
                  (AwaitSet drawResults id
                     [("orderNumber", Plain orderNumber); ("drawResult", Plain drawResult);
                      ("timestamp", ServerTimestamp)]
                     (Return (json 200 true (message "Draw result recorded successfully."))))
          end)
    end.

(** The [catch] block both handlers share: answer 500 with the error's
    message. *)
Definition catch (r : outcome response * World) : response * World :=
  match r with
  | (Returned res, w) => (res, w)
  | (Thrown msg, w) => (json 500 false (error msg), w)
  end.

(** A request served from start to end. *)
Definition post_check_order_number (body : document) (w : World) : response * World :=
  catch (exec (check_order_number body) w).

Definition post_record_draw_result (body : document) (w : World) : response * World :=
  catch (exec (record_draw_result body) w).

(** [GET /keep-alive] answers in plain text and has no store request. *)
Definition keep_alive (w : World) : string * World := ("Server is alive", w).

(** ** Requests in flight together *)

(** Two handler bodies [p] and [q] taking turns: on [turn_a] the first
    resumes up to its next [await], on [turn_b] the second.  A body that has
    finished ignores its turns. *)
Inductive turn : Type := turn_a | turn_b.

Fixpoint interleave (schedule : list turn) (p q : action response) (w : World)
  : action response * action response * World :=
  match schedule with
  | [] => (p, q, w)
  | turn_a :: rest => let '(p', w') := resume p w in interleave rest p' q w'
  | turn_b :: rest => let '(q', w') := resume q w in interleave rest p q' w'
  end.

(** The response a handler body has sent, if it has finished. *)
Definition sent (p : action response) : option response :=
  match p with
  | Return res => Some res
  | Throw msg => Some (json 500 false (error msg))
  | _ => None
  end.


(** ** Vocabulary of the properties *)

(** The error taxonomy of the responses. *)
Definition InvalidInput (res : response) : Prop := status res = 400 ∧ success res = false
  ∧ ∃ text, info res = error text.
Definition NotFound (res : response) : Prop := status res = 404 ∧ success res = false.
Definition AlreadyUsed (res : response) : Prop := status res = 400 ∧ success res = false
  ∧ ∃ text, info res = message text.
Definition StoreError (res : response) : Prop := status res = 500 ∧ success res = false.
Definition Success (res : response) : Prop := status res = 200 ∧ success res = true.

(** The store serves the next [n] round trips. *)
Definition is_served (o : option string) : bool :=
  match o with None => true | Some _ => false end.

Definition served (n : nat) (w : World) : bool := forallb is_served (take n (failures w)).

(** The store serves every round trip to come. *)
Definition reliable (w : World) : bool := forallb is_served (failures w).

(** Every order document carries its own identifier in its [orderNumber]
    field, which is how the campaign's orders are loaded. *)
Definition keyed_by_order_number (c : collection) : bool :=
  forallb (λ kd, value_eqb (prop kd.2 "orderNumber") (VStr kd.1)) (map_to_list c).

(** The documents of a collection that are identified by [o]. *)
Definition records_of (o : string) (c : collection) : list document :=
  (filter (λ kd, kd.1 = o) (map_to_list c)).*2.

(** The order [o] is marked as played. *)
Definition played (o : string) (s : Store) : Prop :=
  ∃ d, order_numbers s !! o = Some d ∧ d !! "hasPlayed" = Some (VBool true).

(** The invariant of the data model, for one order number: at most one draw
    result record, and one exactly when the order is marked as played. *)
Definition redeemed_once (o : string) (s : Store) : Prop :=
  (length (records_of o (draw_results s)) ≤ 1)%nat
  ∧ (records_of o (draw_results s) ≠ [] ↔ played o s).

Definition invariant (s : Store) : Prop := ∀ o, redeemed_once o s.

(** The same invariant as a check over the identifiers in use. *)
Definition playedb (o : string) (s : Store) : bool :=
  match order_numbers s !! o with
  | Some d => value_eqb (prop d "hasPlayed") (VBool true)
  | None => false
  end.

Definition invariantb (s : Store) : bool :=
  forallb (λ o, Bool.eqb (bool_decide (is_Some (draw_results s !! o))) (playedb o s))
    ((map_to_list (order_numbers s)).*1 ++ (map_to_list (draw_results s)).*1).

(** The two writes of a redemption of the document [id], as the store
    applies them at clock values [t1] and [t2]; [orderNumber] is the order
    number as the request gave it. *)
Definition mark_played (t1 : nat) (id : string) (r : value) (s : Store) : Store :=
  match store_update t1 id [("hasPlayed", Plain (VBool true)); ("drawResult", Plain r)]
          (order_numbers s) with
  | Some docs => with_coll orderNumbers docs s
  | None => s
  end.

Definition add_draw_result (t2 : nat) (id : string) (orderNumber r : value) (s : Store)
  : Store :=
  with_coll drawResults
    (store_set t2 id [("orderNumber", Plain orderNumber); ("drawResult", Plain r);
                      ("timestamp", ServerTimestamp)] (draw_results s)) s.

(** An order number that identifies a stored order document.  A document
    identifier is not empty and has no slash. *)
Definition order_record (s : Store) (o : string) (d : document) : Prop :=
  is_document_id o = true ∧ order_numbers s !! o = Some d.

(** ** A campaign with one order

    The example of the specification: the store holds the order [A100], not
    played yet, and no draw result. *)

Definition order_A100 : document :=
  {[ "orderNumber" := VStr "A100"; "hasPlayed" := VBool false ]}.

Definition campaign : Store := mkStore {[ "A100" := order_A100 ]} ∅.

(** The store serves every request. *)
Definition calm : World := mkWorld campaign 0 [] [].

(** The store serves two requests and rejects the third. *)
Definition third_rejected : World :=
  mkWorld campaign 0 [None; None; Some "UNAVAILABLE"] [].

Definition redeem_A100 (prize : string) : document :=
  {[ "orderNumber" := VStr "A100"; "drawResult" := VStr prize ]}.

(** The world after [A100] has been redeemed for [PRIZE1]. *)
Definition after_PRIZE1 : World := (post_record_draw_result (redeem_A100 "PRIZE1") calm).2.

(** Two order documents that carry the same [orderNumber] field, the first
    in identifier order played and the second not. *)
Definition twins : World :=
  mkWorld
    (mkStore {[ "K1" := {[ "orderNumber" := VStr "T7"; "hasPlayed" := VBool true ]};
                "K2" := {[ "orderNumber" := VStr "T7"; "hasPlayed" := VBool false ]} ]} ∅)
    0 [] [].

(** ** The stages of a redemption

    The body of [POST /record-draw-result] once its input check has passed,
    cut at its three [await]s: the request sits at its [get], at its
    [update], at its [set], or has answered. *)

Inductive stage : Type := AtGet | AtUpdate | AtSet | Answered200 | Answered400.

Definition program (o : string) (r : value) (st : stage) : action response :=
  let at_set :=
    AwaitSet drawResults o
      [("orderNumber", Plain (VStr o)); ("drawResult", Plain r);
       ("timestamp", ServerTimestamp)]
      (Return (json 200 true (message "Draw result recorded successfully."))) in
  let at_update :=
    AwaitUpdate orderNumbers o
      [("hasPlayed", Plain (VBool true)); ("drawResult", Plain r)] at_set in
  match st with
  | AtGet =>
      AwaitGet orderNumbers o (fun docSnapshot =>
        match docSnapshot with
        | None => Return (json 404 false (message "Order number does not exist."))
        | Some orderData =>
            if hasPlayed orderData then
              Return (json 400 false (message "You have already used your chance."))
            else at_update
        end)
  | AtUpdate => at_update
  | AtSet => at_set
  | Answered200 => Return (json 200 true (message "Draw result recorded successfully."))
  | Answered400 => Return (json 400 false (message "You have already used your chance."))
  end.

(** The request has made its [update]. *)
Definition past_update (st : stage) : bool :=
  match st with AtSet | Answered200 => true | _ => false end.

(** What holds of the order [o] while two redemptions of it, with draw
    results [r1] and [r2], are in flight at stages [s1] and [s2] and the
    store serves every request. *)
Definition in_flight (o : string) (r1 r2 : value) (s1 s2 : stage) (w : World) : Prop :=
  reliable w = true
  ∧ ∃ d, order_numbers (store w) !! o = Some d
    ∧ (if past_update s1 || past_update s2
       then d !! "hasPlayed" = Some (VBool true)
       else hasPlayed d = false ∧ s1 ≠ Answered400 ∧ s2 ≠ Answered400)
    ∧ (s1 = Answered200 ∨ s2 = Answered200 →
       ∃ rec, draw_results (store w) !! o = Some rec
         ∧ rec !! "orderNumber" = Some (VStr o)
         ∧ (rec !! "drawResult" = Some r1 ∨ rec !! "drawResult" = Some r2)).

(** The store requests a request at stage [st] has still to make, at most. *)
Definition steps_left (st : stage) : nat :=
  match st with AtGet => 3 | AtUpdate => 2 | AtSet => 1 | _ => 0 end.

(** The turns a schedule gives to the first and to the second request. *)
Fixpoint turns_of (schedule : list turn) : nat * nat :=
  match schedule with
  | [] => (0, 0)
  | turn_a :: rest => let '(a, b) := turns_of rest in (S a, b)
  | turn_b :: rest => let '(a, b) := turns_of rest in (a, S b)
  end.

(** What holds of the order [o] while a redemption of it with draw result
    [r] is in flight at stage [st], no other request addressing [o]. *)
Definition on_track (o : string) (r : value) (st : stage) (w : World) : Prop :=
  st ≠ Answered400
  ∧ ∃ d, order_numbers (store w) !! o = Some d
    ∧ (if past_update st
       then d !! "hasPlayed" = Some (VBool true) ∧ d !! "drawResult" = Some r
       else hasPlayed d = false)
    ∧ (st = Answered200 →
       ∃ rec, draw_results (store w) !! o = Some rec
         ∧ rec !! "orderNumber" = Some (VStr o)
         ∧ rec !! "drawResult" = Some r).

(** ** Further example worlds *)

(** The store rejects the first request. *)
Definition first_rejected : World := mkWorld campaign 0 [Some "UNAVAILABLE"] [].

(** An order document stored under an identifier that is not its order
    number. *)
Definition mislabelled : World :=
  mkWorld
    (mkStore {[ "doc1" := {[ "orderNumber" := VStr "A100"; "hasPlayed" := VBool false ]} ]} ∅)
    0 [] [].

(** A campaign with two orders, neither played. *)
Definition order_B200 : document :=
  {[ "orderNumber" := VStr "B200"; "hasPlayed" := VBool false ]}.

Definition two_orders : World :=
  mkWorld (mkStore {[ "A100" := order_A100; "B200" := order_B200 ]} ∅) 0 [] [].

Definition redeem_B200 (prize : string) : document :=
  {[ "orderNumber" := VStr "B200"; "drawResult" := VStr prize ]}.

(** A request for an order number that no document carries. *)
Definition redeem_Z9 : document :=
  {[ "orderNumber" := VStr "Z9"; "drawResult" := VStr "PRIZE1" ]}.

(** A request that writes the order number [A100] with a slash after it. *)
Definition redeem_A100_slash : document :=
  {[ "orderNumber" := VStr "A100/"; "drawResult" := VStr "PRIZE1" ]}.

(** * Properties *)

(** ** Values *)

Lemma value_eqb_VStr (v : value) (s : string) : value_eqb v (VStr s) = true ↔ v = VStr s.
Proof.
  destruct v; simpl; try (split; [discriminate | congruence]).
  rewrite String.eqb_eq. split; congruence.
Qed.

Lemma value_eqb_VBool (v : value) (b : bool) : value_eqb v (VBool b) = true ↔ v = VBool b.
Proof.
  destruct v; simpl; try (split; [discriminate | congruence]).
  rewrite Bool.eqb_true_iff. split; congruence.
Qed.

Lemma value_eqb_VStr_l (s : string) (v : value) : value_eqb (VStr s) v = true → v = VStr s.
Proof.
  destruct v; simpl; try discriminate. by intros ->%String.eqb_eq.
Qed.

Lemma truthy_VStr (s : string) : truthy (VStr s) = true ↔ s ≠ "".
Proof.
  simpl. rewrite negb_true_iff. split.
  - intros H ->. discriminate.
  - intros H. apply String.eqb_neq, H.
Qed.

Lemma prop_lookup (obj : document) (name : string) (v : value) :
  obj !! name = Some v → prop obj name = v.
Proof. unfold prop. by intros ->. Qed.

Lemma prop_missing (obj : document) (name : string) :
  obj !! name = None → prop obj name = VUndefined.
Proof. unfold prop. by intros ->. Qed.

(** ** Document paths *)

Lemma pieces_plain (s : string) : contains_slash s = false → pieces s = [s].
Proof.
  induction s as [|c rest IH]; [done|]. cbn [contains_slash pieces].
  intros [Hc Hrest]%orb_false_elim. by rewrite Hc, (IH Hrest).
Qed.

Lemma has_double_slash_plain (s : string) :
  contains_slash s = false → has_double_slash s = false.
Proof.
  induction s as [|a rest IH]; [done|]. cbn [contains_slash has_double_slash].
  intros [Ha Hrest]%orb_false_elim. destruct rest as [|b rest]; [done|].
  by rewrite Ha, (IH Hrest).
Qed.

Lemma is_document_id_spec (o : string) :
  is_document_id o = true ↔ o ≠ "" ∧ contains_slash o = false.
Proof.
  unfold is_document_id. rewrite andb_true_iff, !negb_true_iff, String.eqb_neq. done.
Qed.

(** A document identifier is its own path. *)
Lemma doc_document_id (o : string) : is_document_id o = true → doc (VStr o) = Returned o.
Proof.
  intros [Ho Hplain]%is_document_id_spec. unfold doc, segments.
  apply String.eqb_neq in Ho as Ho'. rewrite Ho', (has_double_slash_plain _ Hplain).
  rewrite (pieces_plain _ Hplain). cbn zeta. by rewrite filter_cons_True, filter_nil.
Qed.

Lemma truthy_document_id (o : string) : is_document_id o = true → truthy (VStr o) = true.
Proof. intros [Ho _]%is_document_id_spec. by apply truthy_VStr. Qed.

(** What [doc] takes is a non-empty string. *)
Lemma doc_Returned (v : value) (id : string) :
  doc v = Returned id → ∃ path, v = VStr path ∧ path ≠ "".
Proof.
  destruct v as [| |b|n|path|items|props|t]; try discriminate. cbn [doc].
  destruct (String.eqb path "") eqn:Hp; [discriminate|]. intros _.
  exists path. split; [done|]. by apply String.eqb_neq.
Qed.

Lemma doc_Returned_truthy (v : value) (id : string) : doc v = Returned id → truthy v = true.
Proof. intros (path & -> & Hp)%doc_Returned. by apply truthy_VStr. Qed.

(** ** Round trips *)

Lemma round_trip_served (n : nat) (a : access) (w : World) :
  served (S n) w = true →
  round_trip a w = (None, tick a w) ∧ served n (tick a w) = true.
Proof.
  unfold served, round_trip, tick. destruct (failures w) as [|[msg|] fs]; simpl.
  - by rewrite take_nil.
  - discriminate.
  - done.
Qed.

Lemma served_next (n : nat) (a : access) (w : World) :
  served (S n) w = true → mjoin (head (failures w)) = None ∧ served n (tick a w) = true.
Proof.
  intros H. destruct (round_trip_served n a w H) as [Heq ?]. split; [|done].
  unfold round_trip in Heq. congruence.
Qed.

Lemma reliable_served (n : nat) (w : World) : reliable w = true → served n w = true.
Proof.
  unfold reliable, served. rewrite !forallb_forall. intros H x Hx. apply H.
  apply list_elem_of_In. apply list_elem_of_In in Hx. by eapply subseteq_take.
Qed.

Lemma reliable_tick (a : access) (w : World) :
  reliable w = true → reliable (tick a w) = true.
Proof.
  unfold reliable, tick. destruct (failures w) as [|f fs]; simpl; [done|].
  by intros [_ ?]%andb_prop.
Qed.


Lemma reliable_head (w : World) : reliable w = true → mjoin (head (failures w)) = None.
Proof.
  intros H. by destruct (served_next 0 (Read orderNumbers "") w (reliable_served 1 w H)).
Qed.

(** ** The store *)

Lemma elem_of_store_where (field : string) (v : value) (c : collection)
    (id : string) (d : document) :
  (id, d) ∈ store_where field v c
  ↔ validateUserInput 0 v = None ∧ is_document_id id = true
    ∧ c !! id = Some d ∧ value_eqb (prop d field) v = true.
Proof.
  unfold store_where, in_id_order. destruct (validateUserInput 0 v) as [msg|].
  - split; [by intros ?%elem_of_nil | by intros [? _]].
  - rewrite list_elem_of_filter, merge_sort_Permutation, elem_of_map_to_list.
    simpl. tauto.
Qed.

Lemma NoDup_store_where (field : string) (v : value) (c : collection) :
  NoDup (store_where field v c).
Proof.
  unfold store_where, in_id_order. destruct (validateUserInput 0 v); [constructor|].
  apply NoDup_filter. rewrite merge_sort_Permutation. apply NoDup_map_to_list.
Qed.

Lemma keyed_lookup (c : collection) (id : string) (d : document) :
  keyed_by_order_number c = true → c !! id = Some d → prop d "orderNumber" = VStr id.
Proof.
  unfold keyed_by_order_number. rewrite forallb_forall. intros H Hd.
  apply value_eqb_VStr, (H (id, d)), list_elem_of_In, elem_of_map_to_list, Hd.
Qed.

Lemma keyed_spec (c : collection) :
  keyed_by_order_number c = true
  ↔ ∀ id d, c !! id = Some d → prop d "orderNumber" = VStr id.
Proof.
  split; [intros H id d; by apply keyed_lookup|].
  intros H. unfold keyed_by_order_number. apply forallb_forall.
  intros [id d] Hin%list_elem_of_In%elem_of_map_to_list. simpl.
  by apply value_eqb_VStr, H.
Qed.

Lemma NoDup_all_eq {A} (l : list A) (a : A) :
  NoDup l → (∀ x, x ∈ l → x = a) → l = [] ∨ l = [a].
Proof.
  intros Hnd Hall. destruct l as [|x [|y rest]]; [by left | right | exfalso].
  - f_equal. apply Hall. left.
  - apply NoDup_cons in Hnd as [Hx _]. apply Hx.
    rewrite (Hall x), <- (Hall y); [left | right; left | left].
Qed.

(** On a collection keyed by order number the field query for a document
    identifier [o] finds the document that [o] addresses, and nothing
    else. *)
Lemma where_keyed (c : collection) (o : string) :
  keyed_by_order_number c = true →
  is_document_id o = true →
  store_where "orderNumber" (VStr o) c
  = match c !! o with Some d => [(o, d)] | None => [] end.
Proof.
  intros Hkey Hid.
  assert (∀ kd, kd ∈ store_where "orderNumber" (VStr o) c → kd.1 = o ∧ c !! o = Some kd.2)
    as Hin.
  { intros [id d] (_ & _ & Hd & Hv)%elem_of_store_where. simpl.
    rewrite (keyed_lookup _ _ _ Hkey Hd) in Hv. simpl in Hv.
    apply String.eqb_eq in Hv as ->. done. }
  pose proof (NoDup_store_where "orderNumber" (VStr o) c) as Hnd.
  destruct (c !! o) as [d|] eqn:Hd.
  - assert ((o, d) ∈ store_where "orderNumber" (VStr o) c) as Hod.
    { apply elem_of_store_where. repeat split; try done.
      rewrite (keyed_lookup _ _ _ Hkey Hd). simpl. apply String.eqb_refl. }
    destruct (NoDup_all_eq _ (o, d) Hnd) as [Hl|Hl]; [| |done].
    + intros [id d'] [? ?]%Hin. simpl in *. congruence.
    + rewrite Hl in Hod. by apply elem_of_nil in Hod.
  - destruct (store_where "orderNumber" (VStr o) c) as [|x rest]; [done|].
    destruct (Hin x) as [_ ?]; [left | done].
Qed.

(** On a collection keyed by order number, a value that is not the
    identifier of a document matches no document. *)
Lemma where_keyed_absent (c : collection) (v : value) :
  keyed_by_order_number c = true →
  (∀ o, v = VStr o → is_document_id o = true → c !! o = None) →
  store_where "orderNumber" v c = [].
Proof.
  intros Hkey Habsent.
  destruct (store_where "orderNumber" v c) as [|[id d] rest] eqn:Hq; [done|].
  assert ((id, d) ∈ store_where "orderNumber" v c) as (_ & Hid & Hd & Hv)%elem_of_store_where
    by (rewrite Hq; left).
  rewrite (keyed_lookup _ _ _ Hkey Hd) in Hv. apply value_eqb_VStr_l in Hv.
  rewrite (Habsent id Hv Hid) in Hd. discriminate.
Qed.

(** A collection holds at most one document per identifier: the records of
    [o] are the document that [o] addresses, if there is one. *)
Lemma records_of_lookup (o : string) (c : collection) :
  records_of o c = match c !! o with Some d => [d] | None => [] end.
Proof.
  unfold records_of.
  assert (∀ kd, kd ∈ filter (λ kd : string * document, kd.1 = o) (map_to_list c)
                ↔ kd.1 = o ∧ c !! o = Some kd.2) as Hin.
  { intros [id d]. rewrite list_elem_of_filter, elem_of_map_to_list. simpl.
    split; intros [? ?]; subst; done. }
  assert (NoDup (filter (λ kd : string * document, kd.1 = o) (map_to_list c))) as Hnd
    by apply NoDup_filter, NoDup_map_to_list.
  destruct (c !! o) as [d|] eqn:Hd.
  - destruct (NoDup_all_eq _ (o, d) Hnd) as [Hl|Hl].
    + intros [id d'] [? ?]%Hin. simpl in *. congruence.
    + exfalso. assert ((o, d) ∈ @nil (string * document)) as Habs
        by (rewrite <- Hl; by apply Hin).
      by apply elem_of_nil in Habs.
    + by rewrite Hl.
  - destruct (filter _ _) as [|x rest]; [done|].
    destruct (proj1 (Hin x)) as [_ ?]; [left | done].
Qed.

Lemma records_of_length (o : string) (c : collection) : (length (records_of o c) ≤ 1)%nat.
Proof. rewrite records_of_lookup. destruct (c !! o); simpl; lia. Qed.

Lemma records_of_nonempty (o : string) (c : collection) :
  records_of o c ≠ [] ↔ is_Some (c !! o).
Proof.
  rewrite records_of_lookup. by destruct (c !! o) as [d|]; split; try done; intros [? ?].
Qed.

(** The order document after [update]: the two fields are set and every
    other field is kept. *)
Lemma marked_document (t : nat) (r : value) (d : document) :
  let d' := resolve_data t [("hasPlayed", Plain (VBool true)); ("drawResult", Plain r)] ∪ d in
  d' !! "hasPlayed" = Some (VBool true)
  ∧ d' !! "drawResult" = Some r
  ∧ ∀ name, name ≠ "hasPlayed" → name ≠ "drawResult" → d' !! name = d !! name.
Proof.
  cbn. repeat split.
  - apply lookup_union_Some_l. by rewrite lookup_insert_eq.
  - apply lookup_union_Some_l. rewrite lookup_insert_ne by done. by rewrite lookup_insert_eq.
  - intros name H1 H2. apply lookup_union_r.
    by rewrite !lookup_insert_ne, lookup_empty.
Qed.

Lemma mark_played_lookup (t : nat) (o : string) (r : value) (s : Store) (d : document) :
  order_numbers s !! o = Some d →
  mark_played t o r s
  = mkStore (<[o := resolve_data t [("hasPlayed", Plain (VBool true));
                                    ("drawResult", Plain r)] ∪ d]> (order_numbers s))
            (draw_results s).
Proof. unfold mark_played, store_update. by intros ->. Qed.

Lemma add_draw_result_eq (t : nat) (o : string) (v r : value) (s : Store) :
  add_draw_result t o v r s
  = mkStore (order_numbers s)
      (<[o := {[ "orderNumber" := v; "drawResult" := r;
                 "timestamp" := VTimestamp t ]}]> (draw_results s)).
Proof. reflexivity. Qed.


(** ** What the SDK's check lets through *)

Lemma validate_VStr_0 (s : string) : validateUserInput 0 (VStr s) = None.
Proof. reflexivity. Qed.

Lemma validate_VStr_1 (s : string) : validateUserInput 1 (VStr s) = None.
Proof. reflexivity. Qed.

(** The data of the [update] passes when the draw result does. *)
Lemma validate_update_data (r : value) :
  validate_data [("hasPlayed", Plain (VBool true)); ("drawResult", Plain r)]
  = validateUserInput 1 r.
Proof.
  cbn [validate_data]. change (validateUserInput 1 (VBool true)) with (@None string).
  by destruct (validateUserInput 1 r).
Qed.

(** So does the data of the [set], the order number being a string. *)
Lemma validate_set_data (path : string) (r : value) :
  validate_data [("orderNumber", Plain (VStr path)); ("drawResult", Plain r);
                 ("timestamp", ServerTimestamp)]
  = validateUserInput 1 r.
Proof.
  cbn [validate_data]. rewrite validate_VStr_1. by destruct (validateUserInput 1 r).
Qed.

(** ** The handlers in closed form

    What a request served from start to end answers and leaves behind, in
    terms of what the SDK's checks say and of the outcomes of its round
    trips. *)

(** Unfolds a handler run down to the outcome of its round trips. *)
Ltac run_handler :=
  unfold post_check_order_number, post_record_draw_result, check_order_number,
    record_draw_result, catch.

(** The start of [POST /record-draw-result] on a request for a document
    identifier: the input check passes and [doc] takes the order number as
    it is. *)
Lemma record_input_ok (body : document) (o : string) :
  prop body "orderNumber" = VStr o → is_document_id o = true →
  truthy (prop body "drawResult") = true →
  negb (truthy (prop body "orderNumber")) || negb (truthy (prop body "drawResult")) = false
  ∧ doc (prop body "orderNumber") = Returned o.
Proof.
  intros -> Ho ->. split; [|by apply doc_document_id].
  by rewrite (truthy_document_id _ Ho).
Qed.

Lemma check_run (body : document) (w : World) :
  truthy (prop body "orderNumber") = true →
  post_check_order_number body w
  = let w1 := tick (Queried orderNumbers "orderNumber" (prop body "orderNumber")) w in
    match validateUserInput 0 (prop body "orderNumber") with
    | Some msg => (json 500 false (error msg), w)
    | None =>
        match mjoin (head (failures w)) with
        | Some msg => (json 500 false (error msg), w1)
        | None =>
            match store_where "orderNumber" (prop body "orderNumber")
                    (order_numbers (store w)) with
            | [] =>
                (json 404 false (message
                   "Please input a qualified order number. Contact your sales representative for more information."),
                 w1)
            | docSnapshot :: _ =>
                if hasPlayed docSnapshot.2
                then (json 400 false (message "You have used your chance."), w1)
                else (json 200 true
                        (message "Order number is valid. Proceed with the draw."), w1)
            end
        end
    end.
Proof.
  intros Ht. run_handler. rewrite Ht. cbn [negb exec]. unfold request_where.
  destruct (validateUserInput 0 (prop body "orderNumber")) as [msg|] eqn:Hv; [done|].
  unfold round_trip. destruct (mjoin (head (failures w))) as [msg|]; [done|].
  cbn [tick store coll]. destruct (store_where _ _ _) as [|[id d] rest]; [done|].
  cbn [exec snd]. by destruct (hasPlayed d).
Qed.

(** On a collection keyed by order number, a served check of a present order
    answers by the [hasPlayed] of its document. *)
Lemma check_run_keyed (body : document) (w : World) (o : string) (d : document) :
  keyed_by_order_number (order_numbers (store w)) = true →
  order_record (store w) o d →
  prop body "orderNumber" = VStr o →
  served 1 w = true →
  post_check_order_number body w
  = (if hasPlayed d
     then json 400 false (message "You have used your chance.")
     else json 200 true (message "Order number is valid. Proceed with the draw."),
     tick (Queried orderNumbers "orderNumber" (VStr o)) w).
Proof.
  intros Hkey [Ho Hd] Hb Hs.
  rewrite check_run by (rewrite Hb; by apply truthy_document_id). cbn zeta.
  rewrite Hb, validate_VStr_0.
  destruct (served_next 0 (Queried orderNumbers "orderNumber" (VStr o)) w Hs) as [-> _].
  rewrite (where_keyed _ _ Hkey Ho), Hd. cbn [snd]. by destruct (hasPlayed d).
Qed.

(** Every way a [POST /check-order-number] can go. *)
Lemma check_cases (body : document) (w : World) :
  let v := prop body "orderNumber" in
  let w1 := tick (Queried orderNumbers "orderNumber" v) w in
  (truthy v = false
   ∧ post_check_order_number body w
     = (json 400 false (error "Order number is required."), w))
  ∨ (truthy v = true ∧ ∃ msg, validateUserInput 0 v = Some msg
     ∧ post_check_order_number body w = (json 500 false (error msg), w))
  ∨ (truthy v = true ∧ validateUserInput 0 v = None
     ∧ ∃ msg, mjoin (head (failures w)) = Some msg
     ∧ post_check_order_number body w = (json 500 false (error msg), w1))
  ∨ (truthy v = true ∧ validateUserInput 0 v = None
     ∧ mjoin (head (failures w)) = None
     ∧ store_where "orderNumber" v (order_numbers (store w)) = []
     ∧ post_check_order_number body w
       = (json 404 false (message
            "Please input a qualified order number. Contact your sales representative for more information."),
          w1))
  ∨ (truthy v = true ∧ validateUserInput 0 v = None
     ∧ mjoin (head (failures w)) = None
     ∧ ∃ id d rest,
         store_where "orderNumber" v (order_numbers (store w)) = (id, d) :: rest
         ∧ post_check_order_number body w
           = (if hasPlayed d
              then json 400 false (message "You have used your chance.")
              else json 200 true (message "Order number is valid. Proceed with the draw."),
              w1)).
Proof.
  cbn zeta. destruct (truthy (prop body "orderNumber")) eqn:Ht.
  - rewrite check_run by done. cbn zeta.
    destruct (validateUserInput 0 (prop body "orderNumber")) as [msg|] eqn:Hv;
      [right; left; eauto|].
    destruct (mjoin (head (failures w))) as [msg|]; [right; right; left; eauto|].
    destruct (store_where _ _ _) as [|[id d] rest]; [right; right; right; left; eauto|].
    right; right; right; right. split; [done|]. split; [done|]. split; [done|].
    exists id, d, rest. split; [done|]. cbn [snd]. by destruct (hasPlayed d).
  - left. split; [done|]. run_handler. by rewrite Ht.
Qed.

(** [POST /check-order-number] has no write among its requests. *)
Lemma check_keeps_store (body : document) (w : World) :
  store (post_check_order_number body w).2 = store w.
Proof.
  destruct (check_cases body w)
    as [(_ & ->)|[(_ & msg & _ & ->)|[(_ & _ & msg & _ & ->)
       |[(_ & _ & _ & _ & ->)|(_ & _ & _ & id & d & rest & _ & ->)]]]]; done.
Qed.

Lemma record_run (body : document) (w : World) (o : string) :
  doc (prop body "orderNumber") = Returned o →
  truthy (prop body "drawResult") = true →
  post_record_draw_result body w
  = let v := prop body "orderNumber" in
    let r := prop body "drawResult" in
    let w1 := tick (Read orderNumbers o) w in
    match mjoin (head (failures w)) with
    | Some msg => (json 500 false (error msg), w1)
    | None =>
        match order_numbers (store w) !! o with
        | None => (json 404 false (message "Order number does not exist."), w1)
        | Some d =>
            if hasPlayed d
            then (json 400 false (message "You have already used your chance."), w1)
            else
              match validateUserInput 1 r with
              | Some msg => (json 500 false (error msg), w1)
              | None =>
                  let w2 := tick (Updated orderNumbers o) w1 in
                  match mjoin (head (failures w1)) with
                  | Some msg => (json 500 false (error msg), w2)
                  | None =>
                      let w2' := commit (mark_played (now w1) o r (store w)) w2 in
                      let w3 := tick (Written drawResults o) w2' in
                      match mjoin (head (failures w2)) with
                      | Some msg => (json 500 false (error msg), w3)
                      | None =>
                          (json 200 true (message "Draw result recorded successfully."),
                           commit (add_draw_result (now w2) o v r (store w2')) w3)
                      end
                  end
              end
        end
    end.
Proof.
  intros Hdoc Hr. destruct (doc_Returned _ _ Hdoc) as (path & Hb & Hpath).
  run_handler. rewrite Hdoc, Hr, (doc_Returned_truthy _ _ Hdoc). cbn [negb orb exec].
  unfold request_get, round_trip.
  destruct (mjoin (head (failures w))) as [msg|]; [done|].
  cbn [tick store coll]. unfold store_get.
  destruct (order_numbers (store w) !! o) as [d|] eqn:Hd; [|done].
  destruct (hasPlayed d); [done|]. cbn [exec]. unfold request_update.
  rewrite validate_update_data.
  destruct (validateUserInput 1 (prop body "drawResult")) as [msg|] eqn:Hvalid; [done|].
  unfold round_trip. cbn [tick failures].
  destruct (mjoin (head (tail (failures w)))) as [msg|]; [done|].
  cbn [tick store coll now]. unfold mark_played, store_update. rewrite Hd.
  cbn [exec]. unfold request_set. rewrite Hb, validate_set_data, Hvalid.
  unfold round_trip. cbn [commit tick failures].
  by destruct (mjoin (head (tail (tail (failures w))))) as [msg|].
Qed.

(** What a redemption answers and leaves behind when the SDK lets the draw
    result through and the store serves the three requests. *)
Lemma record_run_served (body : document) (w : World) (o : string) (d : document) :
  order_record (store w) o d →
  hasPlayed d = false →
  prop body "orderNumber" = VStr o →
  truthy (prop body "drawResult") = true →
  validateUserInput 1 (prop body "drawResult") = None →
  served 3 w = true →
  (post_record_draw_result body w).1
    = json 200 true (message "Draw result recorded successfully.")
  ∧ store (post_record_draw_result body w).2
    = add_draw_result (S (S (now w))) o (VStr o) (prop body "drawResult")
        (mark_played (S (now w)) o (prop body "drawResult") (store w))
  ∧ now (post_record_draw_result body w).2 = S (S (S (now w)))
  ∧ failures (post_record_draw_result body w).2 = tail (tail (tail (failures w))).
Proof.
  intros [Ho Hd] Hp Hb Hr Hvalid Hs.
  destruct (record_input_ok body o Hb Ho Hr) as [_ Hdoc].
  rewrite (record_run body w o) by done. cbn zeta.
  destruct (served_next 2 (Read orderNumbers o) w Hs) as [-> Hs1].
  rewrite Hd, Hp, Hvalid, Hb.
  destruct (served_next 1 (Updated orderNumbers o) _ Hs1) as [-> Hs2].
  destruct (served_next 0 (Written drawResults o) _ Hs2) as [-> _].
  done.
Qed.

Lemma record_run_played (body : document) (w : World) (o : string) (d : document) :
  order_record (store w) o d →
  hasPlayed d = true →
  prop body "orderNumber" = VStr o →
  truthy (prop body "drawResult") = true →
  served 1 w = true →
  post_record_draw_result body w
  = (json 400 false (message "You have already used your chance."),
     tick (Read orderNumbers o) w).
Proof.
  intros [Ho Hd] Hp Hb Hr Hs.
  destruct (record_input_ok body o Hb Ho Hr) as [_ Hdoc].
  rewrite (record_run body w o) by done. cbn zeta.
  destruct (served_next 0 (Read orderNumbers o) w Hs) as [-> _].
  by rewrite Hd, Hp.
Qed.

(** How [POST /record-draw-result] gets past its input check and [doc]. *)
Lemma record_input_cases (body : document) (w : World) :
  (post_record_draw_result body w
   = (json 400 false (error "Order number and draw result are required."), w))
  ∨ (truthy (prop body "drawResult") = true
     ∧ ∃ msg, doc (prop body "orderNumber") = Thrown msg
         ∧ post_record_draw_result body w = (json 500 false (error msg), w))
  ∨ (∃ o, doc (prop body "orderNumber") = Returned o
       ∧ truthy (prop body "drawResult") = true).
Proof.
  destruct (negb (truthy (prop body "orderNumber"))
            || negb (truthy (prop body "drawResult"))) eqn:Hin.
  { left. run_handler. by rewrite Hin. }
  apply orb_false_elim in Hin as Hin'. destruct Hin' as [Ho Hr].
  apply negb_false_iff in Ho, Hr.
  destruct (doc (prop body "orderNumber")) as [o|msg] eqn:Hdoc.
  - right; right. by exists o.
  - right; left. split; [done|]. exists msg. split; [done|].
    run_handler. by rewrite Hin, Hdoc.
Qed.

(** Splits a redemption that has passed its input check along its paths. *)
Ltac record_paths body w o :=
  rewrite (record_run body w o) by done; cbn zeta; cbn [tick failures commit];
  let msg := fresh "msg" in
  let d := fresh "d" in
  destruct (mjoin (head (failures w))) as [msg|] eqn:?;
    [|destruct (order_numbers (store w) !! o) as [d|] eqn:?;
      [destruct (hasPlayed d) eqn:?;
       [|destruct (validateUserInput 1 (prop body "drawResult")) as [msg|] eqn:?;
         [|destruct (mjoin (head (tail (failures w)))) as [msg|] eqn:?;
           [|destruct (mjoin (head (tail (tail (failures w))))) as [msg|] eqn:?]]]|]].

(** Every way a [POST /record-draw-result] can go: both writes applied and
    200 answered; the first write applied, the second rejected by the store
    and 500 answered; or no write applied and no 200 answered, the request
    having ended before the second write was sent.  [o] is the path of the
    document that [doc] makes of the order number, and [l] lists the round
    trips made. *)
Lemma record_cases (body : document) (w : World) :
  let v := prop body "orderNumber" in
  let r := prop body "drawResult" in
  let res := (post_record_draw_result body w).1 in
  let w' := (post_record_draw_result body w).2 in
  ∃ l, log w' = (log w ++ l)%list ∧
    ((Success res ∧ ∃ o d, doc v = Returned o
        ∧ order_numbers (store w) !! o = Some d ∧ hasPlayed d = false
        ∧ l = [Read orderNumbers o; Updated orderNumbers o; Written drawResults o]
        ∧ store w' = add_draw_result (S (S (now w))) o v r
                       (mark_played (S (now w)) o r (store w)))
     ∨ (StoreError res ∧ ∃ o d, doc v = Returned o
        ∧ order_numbers (store w) !! o = Some d ∧ hasPlayed d = false
        ∧ l = [Read orderNumbers o; Updated orderNumbers o; Written drawResults o]
        ∧ store w' = mark_played (S (now w)) o r (store w))
     ∨ (¬ Success res ∧ store w' = store w ∧ (length l ≤ 2)%nat)).
Proof.
  cbn zeta.
  destruct (record_input_cases body w) as [->|[(_ & msg & _ & ->)|(o & Hdoc & Hr)]].
  1-2: exists []; rewrite (right_id_L [] app); split; [done|]; right; right;
    repeat split; [intros [? _]; discriminate | cbn; lia].
  record_paths body w o; cbn [fst snd log tick commit store];
    rewrite <- ?(assoc_L app); (eexists; split; [reflexivity|]).
  1-5,7: try (right; right; repeat split; [intros [? _]; discriminate | cbn; lia]).
  - right; left. split; [done|]. by exists o, d.
  - left. split; [done|]. by exists o, d.
Qed.


(** ** Sequential and interleaved runs *)

Lemma exec_resume {A} (p : action A) (w : World) :
  exec (resume p w).1 (resume p w).2 = exec p w.
Proof.
  destruct p; cbn [resume exec]; try done.
  - by destruct (request_where _ _ _ _) as [[docs|msg] w'].
  - by destruct (request_get _ _ _) as [[snapshot|msg] w'].
  - by destruct (request_update _ _ _ _) as [[[]|msg] w'].
  - by destruct (request_set _ _ _ _) as [[[]|msg] w'].
Qed.

(** A schedule that gives every turn to one request runs it as [exec]
    does. *)
Lemma interleave_alone (n : nat) (p q : action response) (w : World) :
  let '(p', q', w') := interleave (replicate n turn_a) p q w in
  q' = q ∧ exec p' w' = exec p w.
Proof.
  revert p w. induction n as [|n IH]; intros p w; cbn [replicate interleave]; [done|].
  destruct (resume p w) as [p1 w1] eqn:Hres. specialize (IH p1 w1).
  destruct (interleave _ p1 q w1) as [[p' q'] w']. destruct IH as [-> ->].
  split; [done|]. by rewrite <- (exec_resume p w), Hres.
Qed.

(** ** The invariant of the data model *)

Lemma played_playedb (o : string) (s : Store) : played o s ↔ playedb o s = true.
Proof.
  unfold played, playedb. split.
  - intros (d & -> & Hp). apply value_eqb_VBool. by apply prop_lookup.
  - destruct (order_numbers s !! o) as [d|]; [|done].
    intros Hp%value_eqb_VBool. exists d. split; [done|].
    unfold prop in Hp. by destruct (d !! "hasPlayed"); simplify_eq/=.
Qed.

Lemma redeemed_once_iff (o : string) (s : Store) :
  redeemed_once o s ↔ (is_Some (draw_results s !! o) ↔ played o s).
Proof.
  unfold redeemed_once. rewrite records_of_nonempty.
  pose proof (records_of_length o (draw_results s)). tauto.
Qed.

Lemma not_elem_of_ids (o : string) (c : collection) :
  o ∉ (map_to_list c).*1 → c !! o = None.
Proof.
  intros Hnot. destruct (c !! o) as [d|] eqn:Hd; [|done].
  exfalso. apply Hnot. apply list_elem_of_fmap. exists (o, d).
  split; [done|]. by apply elem_of_map_to_list.
Qed.

Lemma invariantb_spec (s : Store) : invariantb s = true ↔ invariant s.
Proof.
  unfold invariantb, invariant. rewrite forallb_forall. split.
  - intros H o. apply redeemed_once_iff. rewrite played_playedb.
    destruct (decide (o ∈ ((map_to_list (order_numbers s)).*1
                           ++ (map_to_list (draw_results s)).*1)%list)) as [Hin|Hout].
    + apply list_elem_of_In, H, Bool.eqb_prop in Hin. rewrite <- Hin.
      by rewrite bool_decide_eq_true.
    + apply not_elem_of_app in Hout as [H1 H2].
      unfold playedb. rewrite (not_elem_of_ids _ _ H1), (not_elem_of_ids _ _ H2).
      split; [by intros [? ?] | done].
  - intros H o _. specialize (H o). apply redeemed_once_iff in H.
    rewrite played_playedb in H.
    apply Bool.eqb_true_iff, Bool.eq_iff_eq_true.
    by rewrite bool_decide_eq_true.
Qed.

(** The two writes of a redemption, taken together, keep the invariant. *)
Lemma invariant_both_writes (t1 t2 : nat) (o : string) (v r : value) (s : Store)
    (d : document) :
  order_numbers s !! o = Some d →
  invariant s →
  invariant (add_draw_result t2 o v r (mark_played t1 o r s)).
Proof.
  intros Hd Hinv o'. apply redeemed_once_iff.
  rewrite add_draw_result_eq, (mark_played_lookup _ _ _ _ _ Hd).
  unfold played. cbn [order_numbers draw_results].
  destruct (decide (o' = o)) as [->|Hne].
  - rewrite !lookup_insert_eq. split; [|by eexists].
    intros _. eexists. split; [done|]. apply marked_document.
  - rewrite !lookup_insert_ne by done. apply redeemed_once_iff, Hinv.
Qed.

(** The first write alone breaks it for the order it marks. *)
Lemma first_write_alone (t1 : nat) (o : string) (r : value) (s : Store) (d : document) :
  order_numbers s !! o = Some d →
  hasPlayed d = false →
  invariant s →
  ¬ redeemed_once o (mark_played t1 o r s).
Proof.
  intros Hd Hp Hinv [_ Hiff]%redeemed_once_iff.
  rewrite (mark_played_lookup _ _ _ _ _ Hd) in Hiff. cbn [order_numbers draw_results] in Hiff.
  assert (is_Some (draw_results s !! o)) as Hsome.
  { apply Hiff. eexists. split; [apply lookup_insert_eq | apply marked_document]. }
  apply (redeemed_once_iff o s) in Hsome; [|apply Hinv].
  destruct Hsome as (d0 & Hd0 & Hp0). rewrite Hd in Hd0. injection Hd0 as <-.
  unfold hasPlayed in Hp. by rewrite (prop_lookup _ _ _ Hp0) in Hp.
Qed.


(** ** The redemption contract *)

(** What a redemption that answers 200 has found and done. *)
Lemma record_succeeded (body : document) (w : World) :
  let v := prop body "orderNumber" in
  let r := prop body "drawResult" in
  let res := (post_record_draw_result body w).1 in
  let w' := (post_record_draw_result body w).2 in
  Success res →
  ∃ o d, doc v = Returned o ∧ truthy r = true
    ∧ order_numbers (store w) !! o = Some d ∧ hasPlayed d = false
    ∧ res = json 200 true (message "Draw result recorded successfully.")
    ∧ store w' = add_draw_result (S (S (now w))) o v r
                   (mark_played (S (now w)) o r (store w))
    ∧ now w' = S (S (S (now w)))
    ∧ failures w' = tail (tail (tail (failures w))).
Proof.
  cbn zeta.
  destruct (record_input_cases body w) as [->|[(_ & msg & _ & ->)|(o & Hdoc & Hr)]];
    [intros [? _]; discriminate..|].
  record_paths body w o; cbn [fst snd]; intros [Hs _]; try discriminate.
  by exists o, d.
Qed.

(** C1.  A redemption of an order number [o] that is present and not played,
    with a truthy draw result [r], that answers with success has answered
    200 with [success: true] and leaves the order document of [o] with
    [hasPlayed = true] and [drawResult = r], its other fields kept, and
    exactly one draw result record identified by [o], which holds
    [orderNumber = o], [drawResult = r] and a timestamp taken from the
    store's clock, not earlier than the call. *)
Theorem record_success (body : document) (w : World) (o : string) (d : document)
    (r : value) :
  order_record (store w) o d →
  hasPlayed d = false →
  prop body "orderNumber" = VStr o →
  prop body "drawResult" = r →
  truthy r = true →
  Success (post_record_draw_result body w).1 →
  let res := (post_record_draw_result body w).1 in
  let w' := (post_record_draw_result body w).2 in
  res = json 200 true (message "Draw result recorded successfully.")
  ∧ Success res
  ∧ (∃ d', order_numbers (store w') !! o = Some d'
       ∧ d' !! "hasPlayed" = Some (VBool true)
       ∧ d' !! "drawResult" = Some r
       ∧ ∀ name, name ≠ "hasPlayed" → name ≠ "drawResult" → d' !! name = d !! name)
  ∧ (∃ t, records_of o (draw_results (store w'))
            = [ {[ "orderNumber" := VStr o; "drawResult" := r;
                   "timestamp" := VTimestamp t ]} ]
       ∧ (now w ≤ t ≤ now w')%nat).
Proof.
  intros [Ho Hd] Hp Hb <- Hr Hok. cbn zeta.
  destruct (record_succeeded body w Hok)
    as (o' & d' & Hdoc & _ & Hd' & _ & Hres & Hst & Hnow & _).
  rewrite Hb, (doc_document_id _ Ho) in Hdoc. injection Hdoc as <-.
  rewrite Hd in Hd'. injection Hd' as <-.
  rewrite Hres, Hst, Hnow, Hb, add_draw_result_eq, (mark_played_lookup _ _ _ _ _ Hd).
  cbn [order_numbers draw_results]. repeat split.
  - eexists. split; [apply lookup_insert_eq|]. apply marked_document.
  - exists (S (S (now w))). rewrite records_of_lookup, lookup_insert_eq.
    split; [done | lia].
Qed.

(** Whenever the store rejects the second write of a redemption, the
    invariant that held before the request is broken for that order. *)
Lemma rejected_set_breaks_order (body : document) (w : World) (o : string) :
  invariant (store w) →
  StoreError (post_record_draw_result body w).1 →
  log (post_record_draw_result body w).2
    = (log w ++ [Read orderNumbers o; Updated orderNumbers o; Written drawResults o])%list →
  ¬ redeemed_once o (store (post_record_draw_result body w).2).
Proof.
  intros Hinv [Herr _] Hlog.
  destruct (record_cases body w)
    as (l & Hl & [([Hok _] & _)
                 |[(_ & o' & d & _ & Hd & Hp & -> & ->)|(_ & _ & Hlen)]]).
  - congruence.
  - rewrite Hlog in Hl. apply app_inv_head in Hl. injection Hl as <-.
    by eapply first_write_alone.
  - rewrite Hlog in Hl. apply app_inv_head in Hl. subst l. cbn in Hlen. lia.
Qed.

(** C2, as the code has it.  From a store that satisfies the invariant (for
    every order number at most one draw result record, and one exactly when
    the order document has [hasPlayed = true]), the invariant holds again
    after [POST /check-order-number], after [GET /keep-alive], and after
    every [POST /record-draw-result] except the one that ends in a store
    error on its second write, the [set] of the draw result record. *)
Theorem invariant_kept_unless_second_write_rejected (body : document) (w : World) :
  invariant (store w) →
  invariant (store (post_check_order_number body w).2)
  ∧ invariant (store (keep_alive w).2)
  ∧ (let res := (post_record_draw_result body w).1 in
     let w' := (post_record_draw_result body w).2 in
     ¬ (StoreError res
        ∧ ∃ o, log w' = (log w ++ [Read orderNumbers o; Updated orderNumbers o;
                                   Written drawResults o])%list) →
     invariant (store w')).
Proof.
  intros Hinv. split; [by rewrite check_keeps_store|]. split; [done|].
  cbn zeta. intros Hnot.
  destruct (record_cases body w)
    as (l & Hl & [(_ & o & d & _ & Hd & _ & _ & ->)
                 |[(Herr & o & d & _ & _ & _ & -> & _)|(_ & -> & _)]]).
  - by eapply invariant_both_writes.
  - exfalso. apply Hnot. split; [done|]. by exists o.
  - done.
Qed.

(** C3, as the code has it.  The two writes of [POST /record-draw-result]
    are two requests made one after the other, both addressed to the
    document path [o] that [doc] makes of the order number: the [update]
    that marks the order document, then the [set] of the draw result record
    at the same path, holding the order number as it was sent, the draw
    result and the store's timestamp.  A 200 is answered only when both have
    been applied.  A request that does not answer 200 leaves the store
    unchanged, unless it is the second write that the store rejected: then
    500 is answered and the first write stays.  In particular a request that
    never sent its second write answers no 200 and changes nothing. *)
Theorem record_writes_in_sequence (body : document) (w : World) :
  let v := prop body "orderNumber" in
  let r := prop body "drawResult" in
  let res := (post_record_draw_result body w).1 in
  let w' := (post_record_draw_result body w).2 in
  let redemption o :=
    [Read orderNumbers o; Updated orderNumbers o; Written drawResults o] in
  (Success res →
     ∃ o d, doc v = Returned o ∧ order_numbers (store w) !! o = Some d
       ∧ log w' = (log w ++ redemption o)%list
       ∧ store w' = add_draw_result (S (S (now w))) o v r
                      (mark_played (S (now w)) o r (store w)))
  ∧ (¬ Success res →
       store w' = store w
       ∨ (StoreError res
          ∧ ∃ o d, doc v = Returned o ∧ order_numbers (store w) !! o = Some d
              ∧ log w' = (log w ++ redemption o)%list
              ∧ store w' = mark_played (S (now w)) o r (store w)))
  ∧ ((∀ o, log w' ≠ (log w ++ redemption o)%list) →
       ¬ Success res ∧ store w' = store w).
Proof.
  cbn zeta.
  destruct (record_cases body w)
    as (l & Hl & [(Hok & o & d & Hdoc & Hd & _ & -> & Hst)
                 |[(Herr & o & d & Hdoc & Hd & _ & -> & Hst)|(Hno & Hst & Hlen)]]).
  - split; [intros _; by exists o, d|]. split; [done|].
    intros Hlog. by destruct (Hlog o).
  - split.
    { intros [Hs _]. destruct Herr as [He _]. congruence. }
    split; [intros _; right; split; [done|]; by exists o, d|].
    intros Hlog. by destruct (Hlog o).
  - split; [done|]. split; [by left | done].
Qed.


(** C5, as the code has it.  [POST /check-order-number] looks the order up
    with a field query on [orderNumber] and [POST /record-draw-result] with
    a read of the document that [doc] makes of the order number.  On a
    collection in which every document carries its identifier in its
    [orderNumber] field, and for the same order number in the same world,
    one answers 404 exactly when the other does, provided the order number
    has no slash in it: then it is the identifier of the document that is
    read. *)
Theorem lookups_agree (body : document) (w : World) (o : string) :
  keyed_by_order_number (order_numbers (store w)) = true →
  prop body "orderNumber" = VStr o →
  contains_slash o = false →
  truthy (prop body "drawResult") = true →
  (o ≠ "" →
     log (post_check_order_number body w).2
       = (log w ++ [Queried orderNumbers "orderNumber" (VStr o)])%list
     ∧ ∃ more, log (post_record_draw_result body w).2
               = (log w ++ Read orderNumbers o :: more)%list)
  ∧ (NotFound (post_check_order_number body w).1
     ↔ NotFound (post_record_draw_result body w).1).
Proof.
  intros Hkey Hb Hplain Hr. destruct (decide (o = "")) as [->|Ho].
  { split; [done|]. run_handler. rewrite Hb. cbn.
    split; intros [? _]; discriminate. }
  assert (is_document_id o = true) as Hid by by apply is_document_id_spec.
  destruct (record_input_ok body o Hb Hid Hr) as [_ Hdoc].
  rewrite check_run by (rewrite Hb; by apply truthy_document_id).
  cbn zeta. rewrite Hb, validate_VStr_0, (where_keyed _ _ Hkey Hid).
  cbn [snd]. rewrite <- Hb. record_paths body w o; rewrite ?Hb; cbn [fst snd log tick commit].
  all: try match goal with H : hasPlayed _ = _ |- _ => rewrite H end.
  all: cbn [fst snd log tick]; rewrite <- ?(assoc_L app).
  all: split; [intros _; split; [done | by eexists]|].
  all: try (split; intros [? _]; discriminate).
  done.
Qed.

(** C6.  For an order number that is present with a truthy [hasPlayed]
    ([true] in particular) and with the lookup served, both endpoints answer
    400 with [success: false] and a [message]: [POST /check-order-number] on
    a collection keyed by order number, and [POST /record-draw-result] for
    any truthy draw result, which then leaves the store as it was and has
    made one read and no write. *)
Theorem played_order_is_refused (body : document) (w : World) (o : string) (d : document) :
  order_record (store w) o d →
  hasPlayed d = true →
  prop body "orderNumber" = VStr o →
  served 1 w = true →
  (keyed_by_order_number (order_numbers (store w)) = true →
     (post_check_order_number body w).1
       = json 400 false (message "You have used your chance.")
     ∧ AlreadyUsed (post_check_order_number body w).1)
  ∧ (truthy (prop body "drawResult") = true →
     (post_record_draw_result body w).1
       = json 400 false (message "You have already used your chance.")
     ∧ AlreadyUsed (post_record_draw_result body w).1
     ∧ store (post_record_draw_result body w).2 = store w
     ∧ log (post_record_draw_result body w).2 = (log w ++ [Read orderNumbers o])%list).
Proof.
  intros Hrec Hp Hb Hs. split.
  - intros Hkey. rewrite (check_run_keyed body w o d) by done. rewrite Hp.
    repeat split; eauto.
  - intros Hr. rewrite (record_run_played body w o d) by done.
    repeat split; eauto.
Qed.

(** C7.  For an order number that is present and not played, on a
    collection keyed by order number and with the query served,
    [POST /check-order-number] answers 200 with [success: true] and the
    whole store is as it was. *)
Theorem check_unplayed_order (body : document) (w : World) (o : string) (d : document) :
  keyed_by_order_number (order_numbers (store w)) = true →
  order_record (store w) o d →
  hasPlayed d = false →
  prop body "orderNumber" = VStr o →
  served 1 w = true →
  (post_check_order_number body w).1
    = json 200 true (message "Order number is valid. Proceed with the draw.")
  ∧ Success (post_check_order_number body w).1
  ∧ store (post_check_order_number body w).2 = store w.
Proof.
  intros Hkey Hrec Hp Hb Hs.
  rewrite (check_run_keyed body w o d) by done. rewrite Hp. by repeat split.
Qed.

(** C8.  A request that lacks a required field (the body [{}] among them) is
    answered 400 with [success: false] by either endpoint, and the world is
    left exactly as it was: no round trip to the store is logged, neither a
    read nor a write, and the store is unchanged. *)
Theorem missing_field_is_rejected (body : document) (w : World) :
  (body !! "orderNumber" = None →
     InvalidInput (post_check_order_number body w).1
     ∧ (post_check_order_number body w).2 = w)
  ∧ (body !! "orderNumber" = None ∨ body !! "drawResult" = None →
     InvalidInput (post_record_draw_result body w).1
     ∧ (post_record_draw_result body w).2 = w).
Proof.
  split.
  - intros H. run_handler. rewrite (prop_missing _ _ H). simpl.
    repeat split; eauto.
  - intros H. run_handler.
    assert (negb (truthy (prop body "orderNumber"))
            || negb (truthy (prop body "drawResult")) = true) as ->.
    { destruct H as [H|H]; rewrite (prop_missing _ _ H); simpl;
        [done | apply orb_true_r]. }
    simpl. repeat split; eauto.
Qed.

(** C9.  When the field query of [POST /check-order-number] is served and
    finds documents, the response depends on the first of them alone: 400
    [You have used your chance.] when its [hasPlayed] is truthy, 200 when it
    is not, whatever the other matching documents hold. *)
Theorem check_reads_first_document (body : document) (w : World)
    (id : string) (d : document) (rest : list (string * document)) :
  truthy (prop body "orderNumber") = true →
  served 1 w = true →
  store_where "orderNumber" (prop body "orderNumber") (order_numbers (store w))
    = (id, d) :: rest →
  (post_check_order_number body w).1
  = if hasPlayed d
    then json 400 false (message "You have used your chance.")
    else json 200 true (message "Order number is valid. Proceed with the draw.").
Proof.
  intros Ht Hs Hq. rewrite check_run by done. cbn zeta.
  assert (validateUserInput 0 (prop body "orderNumber") = None) as ->.
  { eapply elem_of_store_where. rewrite Hq. apply list_elem_of_here. }
  destruct (served_next 0 (Queried orderNumbers "orderNumber" (prop body "orderNumber"))
              w Hs) as [-> _].
  rewrite Hq. cbn [snd]. by destruct (hasPlayed d).
Qed.

(** C10.  A field that is supplied but falsy counts as missing: an
    [orderNumber] or a [drawResult] whose value is falsy (the empty string,
    [0], [false] and [null] are) gets 400 with [success: false] and an
    [error] text, without any round trip to the store. *)
Theorem falsy_field_is_rejected (body : document) (v : value) (w : World) :
  (truthy (VStr "") = false ∧ truthy (VNum 0) = false
   ∧ truthy (VBool false) = false ∧ truthy VNull = false)
  ∧ (body !! "orderNumber" = Some v → truthy v = false →
     InvalidInput (post_check_order_number body w).1
     ∧ (post_check_order_number body w).2 = w)
  ∧ (body !! "orderNumber" = Some v ∨ body !! "drawResult" = Some v →
     truthy v = false →
     InvalidInput (post_record_draw_result body w).1
     ∧ (post_record_draw_result body w).2 = w).
Proof.
  split; [done|]. split.
  - intros H Hv. run_handler. rewrite (prop_lookup _ _ _ H), Hv. simpl.
    repeat split; eauto.
  - intros H Hv. run_handler.
    assert (negb (truthy (prop body "orderNumber"))
            || negb (truthy (prop body "drawResult")) = true) as ->.
    { destruct H as [H|H]; rewrite (prop_lookup _ _ _ H), Hv; simpl;
        [done | apply orb_true_r]. }
    simpl. repeat split; eauto.
Qed.


(** ** The properties on the example campaign *)

(** Settles a closed goal by evaluation. *)
Ltac evaluate := vm_compute; reflexivity.

Lemma A100_is_an_order : order_record (store calm) "A100" order_A100.
Proof. split; evaluate. Defined.

Lemma A100_is_not_played : hasPlayed order_A100 = false.
Proof. evaluate. Defined.

Lemma redeem_A100_order (prize : string) : prop (redeem_A100 prize) "orderNumber" = VStr "A100".
Proof. evaluate. Defined.

Lemma redeem_A100_result (prize : string) : prop (redeem_A100 prize) "drawResult" = VStr prize.
Proof. evaluate. Defined.

Lemma campaign_is_keyed : keyed_by_order_number (order_numbers (store calm)) = true.
Proof. evaluate. Defined.

Lemma campaign_invariant : invariant (store calm).
Proof. apply invariantb_spec. evaluate. Defined.

Lemma A100_after_PRIZE1 :
  order_record (store after_PRIZE1) "A100"
    {[ "orderNumber" := VStr "A100"; "hasPlayed" := VBool true;
       "drawResult" := VStr "PRIZE1" ]}.
Proof. split; evaluate. Defined.

Lemma record_A100_succeeds :
  Success (post_record_draw_result (redeem_A100 "PRIZE1") calm).1.
Proof. split; evaluate. Defined.

Lemma record_success_witness :
  order_record (store calm) "A100" order_A100
  ∧ hasPlayed order_A100 = false
  ∧ truthy (VStr "PRIZE1") = true
  ∧ Success (post_record_draw_result (redeem_A100 "PRIZE1") calm).1
  ∧ (post_record_draw_result (redeem_A100 "PRIZE1") calm).1
    = json 200 true (message "Draw result recorded successfully.")
  ∧ ∃ t, records_of "A100" (draw_results (store after_PRIZE1))
         = [ {[ "orderNumber" := VStr "A100"; "drawResult" := VStr "PRIZE1";
                "timestamp" := VTimestamp t ]} ].
Proof.
  assert (truthy (VStr "PRIZE1") = true) as Hr by evaluate.
  pose proof (record_success (redeem_A100 "PRIZE1") calm "A100" order_A100 (VStr "PRIZE1")
    A100_is_an_order A100_is_not_played (redeem_A100_order _) (redeem_A100_result _) Hr
    record_A100_succeeds)
    as (Hres & _ & _ & t & Ht & _).
  split; [exact A100_is_an_order|]. split; [exact A100_is_not_played|].
  split; [exact Hr|]. split; [exact record_A100_succeeds|]. split; [exact Hres|].
  exists t. exact Ht.
Defined.

(** C2 as stated fails: the store of the example satisfies the invariant,
    the store rejects the second write of a redemption of [A100], 500 is
    answered, and [A100] is left played with no draw result record. *)
Lemma second_write_rejected_breaks_invariant :
  invariant (store third_rejected)
  ∧ StoreError (post_record_draw_result (redeem_A100 "PRIZE1") third_rejected).1
  ∧ played "A100" (store (post_record_draw_result (redeem_A100 "PRIZE1") third_rejected).2)
  ∧ records_of "A100"
      (draw_results (store (post_record_draw_result (redeem_A100 "PRIZE1") third_rejected).2))
    = []
  ∧ ¬ invariant (store (post_record_draw_result (redeem_A100 "PRIZE1") third_rejected).2).
Proof.
  split; [apply invariantb_spec; evaluate|].
  split; [split; evaluate|].
  split; [apply played_playedb; evaluate|].
  split; [evaluate|].
  intros H%invariantb_spec. vm_compute in H. discriminate.
Qed.

Lemma invariant_kept_unless_second_write_rejected_witness :
  invariant (store calm)
  ∧ invariant (store (post_check_order_number (redeem_A100 "PRIZE1") calm).2)
  ∧ invariant (store after_PRIZE1).
Proof.
  destruct (invariant_kept_unless_second_write_rejected (redeem_A100 "PRIZE1") calm
              campaign_invariant) as (Hcheck & _ & Hrecord).
  split; [exact campaign_invariant|]. split; [exact Hcheck|].
  apply Hrecord. intros [[Hstatus _] _]. vm_compute in Hstatus. discriminate.
Defined.

(** C3 as stated fails: when the store rejects the second write, the
    request fails with 500 and yet its first write is visible: the store has
    changed and [A100] is marked as played. *)
Lemma failed_record_changes_the_store :
  StoreError (post_record_draw_result (redeem_A100 "PRIZE1") third_rejected).1
  ∧ store (post_record_draw_result (redeem_A100 "PRIZE1") third_rejected).2
    ≠ store third_rejected
  ∧ played "A100" (store (post_record_draw_result (redeem_A100 "PRIZE1") third_rejected).2)
  ∧ ¬ played "A100" (store third_rejected).
Proof.
  split; [split; evaluate|].
  assert (played "A100"
    (store (post_record_draw_result (redeem_A100 "PRIZE1") third_rejected).2)) as Hplayed
    by (apply played_playedb; evaluate).
  assert (¬ played "A100" (store third_rejected)) as Hnot
    by (intros H%played_playedb; vm_compute in H; discriminate).
  split; [|done]. intros Heq. apply Hnot. by rewrite <- Heq.
Qed.

Lemma record_writes_in_sequence_witness :
  Success (post_record_draw_result (redeem_A100 "PRIZE1") calm).1
  ∧ store after_PRIZE1
    = add_draw_result 2 "A100" (VStr "A100") (VStr "PRIZE1")
        (mark_played 1 "A100" (VStr "PRIZE1") campaign).
Proof.
  split; [exact record_A100_succeeds|].
  destruct (record_writes_in_sequence (redeem_A100 "PRIZE1") calm) as (Hboth & _ & _).
  destruct (Hboth record_A100_succeeds) as (o & d & Hdoc & _ & _ & Hst).
  rewrite redeem_A100_order in Hdoc. injection Hdoc as <-. exact Hst.
Defined.



(** C5 as stated fails: every order document of the example carries its
    identifier in its [orderNumber] field, and for the order number [A100/]
    the field query finds nothing and [POST /check-order-number] answers
    404, while [doc] takes [A100/] as the path of the document [A100],
    which [POST /record-draw-result] reads, finds, and redeems with 200. *)
Lemma lookups_disagree_on_a_trailing_slash :
  keyed_by_order_number (order_numbers (store calm)) = true
  ∧ prop redeem_A100_slash "orderNumber" = VStr "A100/"
  ∧ truthy (prop redeem_A100_slash "drawResult") = true
  ∧ doc (VStr "A100/") = Returned "A100"
  ∧ NotFound (post_check_order_number redeem_A100_slash calm).1
  ∧ Success (post_record_draw_result redeem_A100_slash calm).1
  ∧ ¬ (NotFound (post_check_order_number redeem_A100_slash calm).1
       ↔ NotFound (post_record_draw_result redeem_A100_slash calm).1).
Proof.
  assert (NotFound (post_check_order_number redeem_A100_slash calm).1) as Hcheck
    by (split; evaluate).
  split; [evaluate|]. split; [evaluate|]. split; [evaluate|]. split; [evaluate|].
  split; [exact Hcheck|]. split; [split; evaluate|].
  intros [Hrecord _]. destruct (Hrecord Hcheck) as [Hstatus _].
  vm_compute in Hstatus. discriminate.
Qed.

Lemma lookups_agree_witness :
  keyed_by_order_number (order_numbers (store calm)) = true
  ∧ contains_slash "A100" = false
  ∧ (NotFound (post_check_order_number (redeem_A100 "PRIZE1") calm).1
     ↔ NotFound (post_record_draw_result (redeem_A100 "PRIZE1") calm).1)
  ∧ (NotFound (post_check_order_number
                 {[ "orderNumber" := VStr "Z9"; "drawResult" := VStr "PRIZE1" ]} calm).1
     ↔ NotFound (post_record_draw_result
                   {[ "orderNumber" := VStr "Z9"; "drawResult" := VStr "PRIZE1" ]} calm).1).
Proof.
  split; [exact campaign_is_keyed|]. split; [evaluate|]. split.
  - apply (lookups_agree (redeem_A100 "PRIZE1") calm "A100" campaign_is_keyed
             (redeem_A100_order _)); evaluate.
  - apply (lookups_agree {[ "orderNumber" := VStr "Z9"; "drawResult" := VStr "PRIZE1" ]}
             calm "Z9" campaign_is_keyed); evaluate.
Defined.

Lemma played_order_is_refused_witness :
  order_record (store after_PRIZE1) "A100"
    {[ "orderNumber" := VStr "A100"; "hasPlayed" := VBool true;
       "drawResult" := VStr "PRIZE1" ]}
  ∧ AlreadyUsed (post_check_order_number (redeem_A100 "PRIZE2") after_PRIZE1).1
  ∧ AlreadyUsed (post_record_draw_result (redeem_A100 "PRIZE2") after_PRIZE1).1
  ∧ store (post_record_draw_result (redeem_A100 "PRIZE2") after_PRIZE1).2
    = store after_PRIZE1.
Proof.
  assert (hasPlayed {[ "orderNumber" := VStr "A100"; "hasPlayed" := VBool true;
                       "drawResult" := VStr "PRIZE1" ]} = true) as Hp by evaluate.
  assert (served 1 after_PRIZE1 = true) as Hs by evaluate.
  assert (keyed_by_order_number (order_numbers (store after_PRIZE1)) = true) as Hkey
    by evaluate.
  assert (truthy (prop (redeem_A100 "PRIZE2") "drawResult") = true) as Hr by evaluate.
  destruct (played_order_is_refused (redeem_A100 "PRIZE2") after_PRIZE1 "A100" _
              A100_after_PRIZE1 Hp (redeem_A100_order _) Hs) as [Hcheck Hrecord].
  destruct (Hcheck Hkey) as [_ Hc]. destruct (Hrecord Hr) as (_ & Hu & Hst & _).
  split; [exact A100_after_PRIZE1|]. split; [exact Hc|]. split; [exact Hu|]. exact Hst.
Defined.

Lemma check_unplayed_order_witness :
  keyed_by_order_number (order_numbers (store calm)) = true
  ∧ order_record (store calm) "A100" order_A100
  ∧ hasPlayed order_A100 = false
  ∧ served 1 calm = true
  ∧ Success (post_check_order_number {[ "orderNumber" := VStr "A100" ]} calm).1
  ∧ store (post_check_order_number {[ "orderNumber" := VStr "A100" ]} calm).2 = store calm.
Proof.
  assert (served 1 calm = true) as Hs by evaluate.
  assert (prop ({[ "orderNumber" := VStr "A100" ]} : document) "orderNumber" = VStr "A100")
    as Hb by evaluate.
  destruct (check_unplayed_order {[ "orderNumber" := VStr "A100" ]} calm "A100" order_A100
              campaign_is_keyed A100_is_an_order A100_is_not_played Hb Hs)
    as (_ & Hok & Hst).
  split; [exact campaign_is_keyed|]. split; [exact A100_is_an_order|].
  split; [exact A100_is_not_played|]. split; [exact Hs|]. split; [exact Hok|]. exact Hst.
Defined.

Lemma missing_field_is_rejected_witness :
  InvalidInput (post_check_order_number ∅ calm).1
  ∧ (post_check_order_number ∅ calm).2 = calm
  ∧ InvalidInput (post_record_draw_result ∅ calm).1
  ∧ (post_record_draw_result ∅ calm).2 = calm
  ∧ InvalidInput (post_record_draw_result {[ "orderNumber" := VStr "A100" ]} calm).1
  ∧ InvalidInput (post_record_draw_result {[ "drawResult" := VStr "PRIZE1" ]} calm).1.
Proof.
  destruct (missing_field_is_rejected ∅ calm) as [Hcheck Hrecord].
  destruct (Hcheck eq_refl) as [Hc1 Hc2].
  destruct (Hrecord (or_introl eq_refl)) as [Hr1 Hr2].
  destruct (missing_field_is_rejected {[ "orderNumber" := VStr "A100" ]} calm) as [_ Hno_result].
  destruct (missing_field_is_rejected {[ "drawResult" := VStr "PRIZE1" ]} calm) as [_ Hno_order].
  split; [exact Hc1|]. split; [exact Hc2|]. split; [exact Hr1|]. split; [exact Hr2|].
  split.
  - apply Hno_result. right. evaluate.
  - apply Hno_order. left. evaluate.
Defined.

Lemma check_reads_first_document_witness :
  store_where "orderNumber" (VStr "T7") (order_numbers (store twins))
    = [("K1", {[ "orderNumber" := VStr "T7"; "hasPlayed" := VBool true ]});
       ("K2", {[ "orderNumber" := VStr "T7"; "hasPlayed" := VBool false ]})]
  ∧ (post_check_order_number {[ "orderNumber" := VStr "T7" ]} twins).1
    = json 400 false (message "You have used your chance.").
Proof.
  assert (store_where "orderNumber" (VStr "T7") (order_numbers (store twins))
    = [("K1", {[ "orderNumber" := VStr "T7"; "hasPlayed" := VBool true ]});
       ("K2", {[ "orderNumber" := VStr "T7"; "hasPlayed" := VBool false ]})]) as Hq
    by evaluate.
  split; [exact Hq|].
  assert (truthy (prop ({[ "orderNumber" := VStr "T7" ]} : document) "orderNumber") = true)
    as Ht by evaluate.
  assert (served 1 twins = true) as Hs by evaluate.
  exact (check_reads_first_document {[ "orderNumber" := VStr "T7" ]} twins _ _ _ Ht Hs Hq).
Defined.

Lemma falsy_field_is_rejected_witness :
  InvalidInput (post_check_order_number {[ "orderNumber" := VStr "" ]} calm).1
  ∧ InvalidInput (post_record_draw_result
                    {[ "orderNumber" := VStr "A100"; "drawResult" := VNum 0 ]} calm).1
  ∧ InvalidInput (post_record_draw_result
                    {[ "orderNumber" := VStr "A100"; "drawResult" := VBool false ]} calm).1
  ∧ InvalidInput (post_record_draw_result
                    {[ "orderNumber" := VStr ""; "drawResult" := VStr "PRIZE1" ]} calm).1.
Proof.
  split.
  { apply (falsy_field_is_rejected {[ "orderNumber" := VStr "" ]} (VStr "") calm); evaluate. }
  split.
  { apply (falsy_field_is_rejected {[ "orderNumber" := VStr "A100"; "drawResult" := VNum 0 ]}
             (VNum 0) calm); [right|]; evaluate. }
  split.
  { apply (falsy_field_is_rejected
             {[ "orderNumber" := VStr "A100"; "drawResult" := VBool false ]}
             (VBool false) calm); [right|]; evaluate. }
  apply (falsy_field_is_rejected
           {[ "orderNumber" := VStr ""; "drawResult" := VStr "PRIZE1" ]}
           (VStr "") calm); [left|]; evaluate.
Defined.


(** * Further properties of the handlers *)

(** ** Responses *)

(** X1.  [POST /check-order-number] is read-only: on every request it leaves
    the store as it was, and it makes no store request at all or exactly
    one, the field query on [orderNumber]. *)
Theorem check_is_read_only (body : document) (w : World) :
  store (post_check_order_number body w).2 = store w
  ∧ ((post_check_order_number body w).2 = w
     ∨ (post_check_order_number body w).2
       = tick (Queried orderNumbers "orderNumber" (prop body "orderNumber")) w).
Proof.
  destruct (check_cases body w)
    as [(_ & ->)|[(_ & msg & _ & ->)|[(_ & _ & msg & _ & ->)
       |[(_ & _ & _ & _ & ->)|(_ & _ & _ & id & d & rest & _ & ->)]]]];
    cbn; auto.
Qed.

(** X2.  The answers of [POST /check-order-number] are these five and no
    other; [success] is [true] exactly in the answer with status 200. *)
Theorem check_answers (body : document) (w : World) :
  let res := (post_check_order_number body w).1 in
  (res = json 400 false (error "Order number is required.")
   ∨ (∃ msg, res = json 500 false (error msg))
   ∨ res = json 404 false (message
       "Please input a qualified order number. Contact your sales representative for more information.")
   ∨ res = json 400 false (message "You have used your chance.")
   ∨ res = json 200 true (message "Order number is valid. Proceed with the draw."))
  ∧ (success res = true ↔ status res = 200).
Proof.
  cbn zeta.
  destruct (check_cases body w)
    as [(_ & ->)|[(_ & msg & _ & ->)|[(_ & _ & msg & _ & ->)
       |[(_ & _ & _ & _ & ->)|(_ & _ & _ & id & d & rest & _ & ->)]]]];
    cbn [fst]; try destruct (hasPlayed d); (split; [eauto 10 | by cbn]).
Qed.

(** X3.  The answers of [POST /record-draw-result] are these five and no
    other; [success] is [true] exactly in the answer with status 200. *)
Theorem record_answers (body : document) (w : World) :
  let res := (post_record_draw_result body w).1 in
  (res = json 400 false (error "Order number and draw result are required.")
   ∨ (∃ msg, res = json 500 false (error msg))
   ∨ res = json 404 false (message "Order number does not exist.")
   ∨ res = json 400 false (message "You have already used your chance.")
   ∨ res = json 200 true (message "Draw result recorded successfully."))
  ∧ (success res = true ↔ status res = 200).
Proof.
  cbn zeta.
  destruct (record_input_cases body w) as [->|[(_ & msg & _ & ->)|(o & Hdoc & Hr)]];
    [split; [eauto 10 | by cbn]..|].
  record_paths body w o; cbn [fst]; (split; [eauto 10 | by cbn]).
Qed.

Lemma mjoin_head_lookup (l : list (option string)) (msg : string) :
  mjoin (head l) = Some msg ↔ l !! 0%nat = Some (Some msg).
Proof. destruct l as [|[m|] l]; split; intros H; by simplify_eq/=. Qed.

Lemma mjoin_head_served (l : list (option string)) :
  mjoin (head l) = None ↔ forallb is_served (take 1 l) = true.
Proof. destruct l as [|[m|] l]; split; intros H; by simplify_eq/=. Qed.

(** X4.  A 500 always has a cause outside the handlers, and carries that
    cause's message as its [error]: a value that the SDK refuses before it
    sends anything (the order number given to [where] or to [doc], the draw
    result given to [update]), or a round trip that the store rejected, all
    the round trips before it having been served (for
    [POST /check-order-number] the first and only one, for
    [POST /record-draw-result] one of its three). *)
Theorem internal_error_has_a_cause (body : document) (w : World) :
  (status (post_check_order_number body w).1 = 500 →
     ∃ msg, (post_check_order_number body w).1 = json 500 false (error msg)
       ∧ (validateUserInput 0 (prop body "orderNumber") = Some msg
          ∨ failures w !! 0%nat = Some (Some msg)))
  ∧ (status (post_record_draw_result body w).1 = 500 →
     ∃ msg, (post_record_draw_result body w).1 = json 500 false (error msg)
       ∧ (doc (prop body "orderNumber") = Thrown msg
          ∨ validateUserInput 1 (prop body "drawResult") = Some msg
          ∨ ∃ i, (i < 3)%nat ∧ served i w = true
              ∧ failures w !! i = Some (Some msg))).
Proof.
  split.
  - destruct (check_cases body w)
      as [(_ & ->)|[(_ & msg & Hv & ->)|[(_ & _ & msg & Hf & ->)
         |[(_ & _ & _ & _ & ->)|(_ & _ & _ & id & d & rest & _ & ->)]]]];
      cbn [fst]; try destruct (hasPlayed d); try discriminate.
    + intros _. exists msg. split; [done|]. by left.
    + intros _. exists msg. split; [done|]. right. by apply mjoin_head_lookup.
  - destruct (record_input_cases body w)
      as [->|[(_ & msg & Hdoc & ->)|(o & Hdoc & Hr)]]; [discriminate|eauto|].
    record_paths body w o; cbn [fst]; try discriminate; intros _; eexists;
      (split; [done|]; right).
    + right. exists 0%nat. split; [lia|]. split; [done|]. by apply mjoin_head_lookup.
    + by left.
    + right. exists 1%nat. split; [lia|]. unfold served.
      destruct (failures w) as [|[m|] [|[m'|] fs]]; cbn in *; try discriminate.
      split; [done|]. congruence.
    + right. exists 2%nat. split; [lia|]. unfold served.
      destruct (failures w) as [|[m|] [|[m'|] [|[m''|] fs]]]; cbn in *; try discriminate.
      split; [done|]. congruence.
Qed.

(** X5.  The store requests of one [POST /record-draw-result] are an initial
    part of: read the order document, update it, write the draw result
    document, each addressed by the document path that [doc] makes of the
    order number of the request.  The draw result is never written before
    the order is marked, no other document is addressed, and the store's
    clock advances by one per request. *)
Theorem record_requests_in_order (body : document) (w : World) :
  ∃ l, log (post_record_draw_result body w).2 = (log w ++ l)%list
    ∧ now (post_record_draw_result body w).2 = (now w + length l)%nat
    ∧ (l = []
       ∨ ∃ o, doc (prop body "orderNumber") = Returned o
           ∧ l `prefix_of` [Read orderNumbers o; Updated orderNumbers o;
                            Written drawResults o]).
Proof.
  destruct (record_input_cases body w) as [->|[(_ & msg & _ & ->)|(o & Hdoc & Hr)]];
    [exists []; cbn; rewrite (right_id_L [] app); split; [done|]; split; [lia | by left]..|].
  record_paths body w o; cbn [snd log now tick commit].
  all: rewrite <- ?(assoc_L app); eexists; (split; [reflexivity|]); cbn [app length];
    (split; [lia|]); right; exists o; (split; [done|]); eexists; cbn; reflexivity.
Qed.

(** ** Orders that are absent *)

(** X6.  An order number that addresses no document is answered 404 by both
    endpoints when the lookup is served: by [POST /check-order-number] on a
    collection keyed by order number, for every truthy [orderNumber] that
    [where] takes, a string or not, that is not the identifier of a
    document; by [POST /record-draw-result] for an order number of which
    [doc] makes the path of no document, and a truthy draw result.  Neither
    changes the store, and the second has made its read and nothing else. *)
Theorem absent_order_is_not_found (body : document) (w : World) :
  served 1 w = true →
  (keyed_by_order_number (order_numbers (store w)) = true →
   truthy (prop body "orderNumber") = true →
   validateUserInput 0 (prop body "orderNumber") = None →
   (∀ o, prop body "orderNumber" = VStr o → is_document_id o = true →
         order_numbers (store w) !! o = None) →
     (post_check_order_number body w).1
       = json 404 false (message
           "Please input a qualified order number. Contact your sales representative for more information.")
     ∧ store (post_check_order_number body w).2 = store w)
  ∧ (∀ o, doc (prop body "orderNumber") = Returned o →
     truthy (prop body "drawResult") = true →
     order_numbers (store w) !! o = None →
     post_record_draw_result body w
       = (json 404 false (message "Order number does not exist."),
          tick (Read orderNumbers o) w)).
Proof.
  intros Hs. destruct (served_next 0 (Read orderNumbers "") w Hs) as [Hf _]. split.
  - intros Hkey Ht Hvalid Habsent. rewrite check_run by done. cbn zeta.
    by rewrite Hvalid, Hf, (where_keyed_absent _ _ Hkey Habsent).
  - intros o Hdoc Hr Hd. rewrite (record_run body w o) by done. cbn zeta.
    by rewrite Hf, Hd.
Qed.

(** ** What a redemption leaves alone *)

(** X7.  [POST /record-draw-result] touches the documents at one path only,
    the one that [doc] makes of its order number: at every other path the
    order document and the draw result document are as they were, however
    the request ends. *)
Theorem record_leaves_other_orders (body : document) (w : World) (id : string) :
  doc (prop body "orderNumber") ≠ Returned id →
  order_numbers (store (post_record_draw_result body w).2) !! id
    = order_numbers (store w) !! id
  ∧ draw_results (store (post_record_draw_result body w).2) !! id
    = draw_results (store w) !! id.
Proof.
  intros Hne.
  destruct (record_cases body w)
    as (l & _ & [(_ & o & d & Hdoc & Hd & _ & _ & ->)
                |[(_ & o & d & Hdoc & Hd & _ & _ & ->)|(_ & -> & _)]]); [| |done].
  all: assert (o ≠ id) by (intros ->; done).
  - rewrite add_draw_result_eq, (mark_played_lookup _ _ _ _ _ Hd).
    cbn [order_numbers draw_results]. by rewrite !lookup_insert_ne.
  - rewrite (mark_played_lookup _ _ _ _ _ Hd).
    cbn [order_numbers draw_results]. by rewrite lookup_insert_ne.
Qed.

Lemma played_mark_played (t : nat) (o id : string) (r : value) (s : Store) :
  played id s → played id (mark_played t o r s).
Proof.
  intros (d & Hd & Hp). destruct (order_numbers s !! o) as [d0|] eqn:Ho.
  - rewrite (mark_played_lookup _ _ _ _ _ Ho). unfold played. cbn [order_numbers].
    destruct (decide (o = id)) as [->|Hne].
    + rewrite lookup_insert_eq. eexists. split; [done|]. apply marked_document.
    + rewrite lookup_insert_ne by done. by exists d.
  - unfold mark_played, store_update. rewrite Ho. by exists d.
Qed.

(** X8.  [POST /record-draw-result] creates no order document and deletes
    none, deletes no draw result document, and never takes back a
    redemption: an order with [hasPlayed = true] still has it afterwards.
    This holds on every path, failed requests included. *)
Theorem record_never_removes (body : document) (w : World) (id : string) :
  let s := store w in
  let s' := store (post_record_draw_result body w).2 in
  (is_Some (order_numbers s' !! id) ↔ is_Some (order_numbers s !! id))
  ∧ (is_Some (draw_results s !! id) → is_Some (draw_results s' !! id))
  ∧ (played id s → played id s').
Proof.
  cbn zeta.
  destruct (record_cases body w)
    as (l & _ & [(_ & o & d & _ & Hd & _ & _ & ->)
                |[(_ & o & d & _ & Hd & _ & _ & ->)|(_ & -> & _)]]); [| |done].
  - split; [|split].
    + rewrite add_draw_result_eq, (mark_played_lookup _ _ _ _ _ Hd).
      cbn [order_numbers]. destruct (decide (o = id)) as [->|Hne].
      * rewrite lookup_insert_eq, Hd. split; by eexists.
      * by rewrite lookup_insert_ne.
    + rewrite add_draw_result_eq, (mark_played_lookup _ _ _ _ _ Hd).
      cbn [draw_results]. destruct (decide (o = id)) as [->|Hne].
      * rewrite lookup_insert_eq. by eexists.
      * by rewrite lookup_insert_ne.
    + intros Hp%(played_mark_played (S (now w)) o id (prop body "drawResult")).
      by rewrite add_draw_result_eq.
  - split; [|split].
    + rewrite (mark_played_lookup _ _ _ _ _ Hd).
      cbn [order_numbers]. destruct (decide (o = id)) as [->|Hne].
      * rewrite lookup_insert_eq, Hd. split; by eexists.
      * by rewrite lookup_insert_ne.
    + by rewrite (mark_played_lookup _ _ _ _ _ Hd).
    + apply played_mark_played.
Qed.

(** X9.  On a store that satisfies the invariant of the data model, a draw
    result document is never changed by a later [POST /record-draw-result]:
    whatever the request and however it ends, every draw result document
    is still there with the same content. *)
Theorem draw_results_are_immutable (body : document) (w : World) (id : string)
    (rec : document) :
  invariant (store w) →
  draw_results (store w) !! id = Some rec →
  draw_results (store (post_record_draw_result body w).2) !! id = Some rec.
Proof.
  intros Hinv Hrec.
  destruct (record_cases body w)
    as (l & _ & [(_ & o & d & _ & Hd & Hp & _ & ->)
                |[(_ & o & d & _ & Hd & _ & _ & ->)|(_ & -> & _)]]); [| |done].
  - rewrite add_draw_result_eq. cbn [draw_results].
    rewrite (mark_played_lookup _ _ _ _ _ Hd). cbn [draw_results].
    destruct (decide (o = id)) as [->|Hne]; [|by rewrite lookup_insert_ne].
    exfalso. assert (played id (store w)) as (d' & Hd' & Hp').
    { apply (proj1 (redeemed_once_iff id (store w)) (Hinv id)). by eexists. }
    rewrite Hd in Hd'. injection Hd' as <-.
    unfold hasPlayed in Hp. by rewrite (prop_lookup _ _ _ Hp') in Hp.
  - by rewrite (mark_played_lookup _ _ _ _ _ Hd).
Qed.

(** ** Documents stay keyed by order number *)

(** Of a string without a slash [doc] makes the path that is the string. *)
Lemma doc_plain (path o : string) :
  doc (VStr path) = Returned o → contains_slash path = false →
  o = path ∧ is_document_id path = true.
Proof.
  intros Hdoc Hplain. destruct (doc_Returned _ _ Hdoc) as (p & [= <-] & Hp).
  assert (is_document_id path = true) as Hid by by apply is_document_id_spec.
  rewrite (doc_document_id _ Hid) in Hdoc. by injection Hdoc as <-.
Qed.

Lemma keyed_mark_played (t : nat) (o : string) (r : value) (s : Store) :
  keyed_by_order_number (order_numbers s) = true →
  keyed_by_order_number (order_numbers (mark_played t o r s)) = true.
Proof.
  intros Hkey. destruct (order_numbers s !! o) as [d0|] eqn:Ho.
  - rewrite (mark_played_lookup _ _ _ _ _ Ho). cbn [order_numbers].
    apply keyed_spec. intros id d. destruct (decide (o = id)) as [->|Hne].
    + rewrite lookup_insert_eq. intros [= <-]. unfold prop.
      destruct (marked_document t r d0) as (_ & _ & Hkept). rewrite Hkept by done.
      by apply (keyed_lookup _ _ _ Hkey).
    + rewrite lookup_insert_ne by done. by apply keyed_lookup.
  - unfold mark_played, store_update. by rewrite Ho.
Qed.

Lemma keyed_add_draw_result (t : nat) (o : string) (r : value) (s : Store) :
  keyed_by_order_number (draw_results s) = true →
  keyed_by_order_number (draw_results (add_draw_result t o (VStr o) r s)) = true.
Proof.
  intros Hkey. rewrite add_draw_result_eq. cbn [draw_results].
  apply keyed_spec. intros id d. destruct (decide (o = id)) as [->|Hne].
  - rewrite lookup_insert_eq. by intros [= <-].
  - rewrite lookup_insert_ne by done. by apply keyed_lookup.
Qed.

(** X10.  [POST /record-draw-result] keeps the order documents keyed by
    order number: if every order document carries its identifier in its
    [orderNumber] field it still does afterwards (the update sets two other
    fields).  It keeps the draw result documents so when the order number
    of the request has no slash in it: the document is then written under
    the order number it holds.  This holds however the request ends. *)
Theorem record_keeps_keyed (body : document) (w : World) :
  let s := store w in
  let s' := store (post_record_draw_result body w).2 in
  (keyed_by_order_number (order_numbers s) = true →
     keyed_by_order_number (order_numbers s') = true)
  ∧ ((∀ path, prop body "orderNumber" = VStr path → contains_slash path = false) →
     keyed_by_order_number (draw_results s) = true →
     keyed_by_order_number (draw_results s') = true).
Proof.
  cbn zeta.
  destruct (record_cases body w)
    as (l & _ & [(_ & o & d & Hdoc & _ & _ & _ & ->)
                |[(_ & o & d & _ & Hd & _ & _ & ->)|(_ & -> & _)]]); [| |done].
  - split.
    + intros Hkey. rewrite add_draw_result_eq. cbn [order_numbers].
      by apply keyed_mark_played.
    + intros Hplain Hkey. destruct (doc_Returned _ _ Hdoc) as (path & Hb & _).
      rewrite Hb in Hdoc |- *. destruct (doc_plain _ _ Hdoc (Hplain _ Hb)) as [-> _].
      apply keyed_add_draw_result. revert Hkey.
      unfold mark_played. by destruct (store_update _ _ _ _).
  - split; [intros Hkey; by apply keyed_mark_played|]. intros _ Hkey.
    by rewrite (mark_played_lookup _ _ _ _ _ Hd).
Qed.

(** ** The two steps together *)

(** X11.  Checking twice gives the same answer: when the store serves both
    queries, a second [POST /check-order-number] with the same body answers
    as the first did. *)
Theorem check_is_repeatable (body : document) (w : World) :
  served 2 w = true →
  (post_check_order_number body (post_check_order_number body w).2).1
  = (post_check_order_number body w).1.
Proof.
  intros Hs.
  destruct (served_next 1 (Queried orderNumbers "orderNumber" (prop body "orderNumber"))
              w Hs) as [Hf Hs1].
  destruct (served_next 0 (Queried orderNumbers "orderNumber" (prop body "orderNumber"))
              _ Hs1) as [Hf1 _].
  destruct (check_cases body w)
    as [(_ & Heq)|[(_ & msg & _ & Heq)|[(_ & _ & msg & Hmsg & _)
       |[(Ht & Hv & _ & Hq & Heq)|(Ht & Hv & _ & id & d & rest & Hq & Heq)]]]];
    [| |congruence|..]; rewrite Heq; cbn [fst snd].
  - by rewrite Heq.
  - by rewrite Heq.
  - rewrite check_run by done. cbn zeta. rewrite Hv, Hf1. cbn [tick store].
    by rewrite Hq.
  - rewrite check_run by done. cbn zeta. rewrite Hv, Hf1. cbn [tick store].
    rewrite Hq. cbn [snd]. by destruct (hasPlayed d).
Qed.

(** X12.  Step 1 then step 2: on a collection keyed by order number, an order
    number that [POST /check-order-number] has just answered 200 for is
    redeemed by a [POST /record-draw-result] that follows it with the same
    order number and a draw result that is a non-empty string, when the
    store serves its three requests. *)
Theorem check_then_record (cbody rbody : document) (w : World) (prize : string) :
  keyed_by_order_number (order_numbers (store w)) = true →
  Success (post_check_order_number cbody w).1 →
  prop rbody "orderNumber" = prop cbody "orderNumber" →
  prop rbody "drawResult" = VStr prize → prize ≠ "" →
  served 3 (post_check_order_number cbody w).2 = true →
  (post_record_draw_result rbody (post_check_order_number cbody w).2).1
  = json 200 true (message "Draw result recorded successfully.").
Proof.
  intros Hkey [Hok _] Hsame Hprize Hne Hs.
  destruct (check_cases cbody w)
    as [(_ & Heq)|[(_ & msg & _ & Heq)|[(_ & _ & msg & _ & Heq)
       |[(_ & _ & _ & _ & Heq)|(Ht & _ & _ & id & d & rest & Hq & Heq)]]]];
    rewrite Heq in Hok, Hs |- *; try discriminate.
  destruct (hasPlayed d) eqn:Hp; [discriminate|]. cbn [snd] in *.
  assert ((id, d) ∈ store_where "orderNumber" (prop cbody "orderNumber")
                      (order_numbers (store w))) as (_ & Hid & Hd & Hv)%elem_of_store_where
    by (rewrite Hq; left).
  rewrite (keyed_lookup _ _ _ Hkey Hd) in Hv. apply value_eqb_VStr_l in Hv.
  apply (record_run_served rbody _ id d); try done.
  - congruence.
  - rewrite Hprize. by apply truthy_VStr.
  - by rewrite Hprize.
Qed.

(** X13.  Step 2 then step 1: on a collection keyed by order number, once
    [POST /record-draw-result] has answered 200 for an order number that
    has no slash in it, a [POST /check-order-number] for the same order
    number that follows it and is served answers 400,
    [You have used your chance.] *)
Theorem record_then_check (rbody cbody : document) (w : World) (o : string) :
  keyed_by_order_number (order_numbers (store w)) = true →
  Success (post_record_draw_result rbody w).1 →
  prop rbody "orderNumber" = VStr o → contains_slash o = false →
  prop cbody "orderNumber" = VStr o →
  served 1 (post_record_draw_result rbody w).2 = true →
  (post_check_order_number cbody (post_record_draw_result rbody w).2).1
  = json 400 false (message "You have used your chance.").
Proof.
  intros Hkey Hok Hb Hplain Hc Hs.
  destruct (record_succeeded rbody w Hok)
    as (o' & d & Hdoc & _ & Hd & _ & _ & Hst & _).
  rewrite Hb in Hdoc, Hst. destruct (doc_plain _ _ Hdoc Hplain) as [-> Hid].
  rewrite (check_run_keyed cbody _ o
    (resolve_data (S (now w)) [("hasPlayed", Plain (VBool true));
                               ("drawResult", Plain (prop rbody "drawResult"))] ∪ d));
    try done.
  - cbn [fst]. unfold hasPlayed.
    rewrite (prop_lookup _ _ (VBool true)); [done|]. apply marked_document.
  - rewrite Hst, add_draw_result_eq. cbn [order_numbers]. by apply keyed_mark_played.
  - split; [done|]. rewrite Hst, add_draw_result_eq, (mark_played_lookup _ _ _ _ _ Hd).
    cbn [order_numbers]. apply lookup_insert_eq.
Qed.

(** X14.  Without the keying the two lookups part: when the first document
    that the field query finds for an order number is not played but there
    is no document at the path that [doc] makes of that order number,
    [POST /check-order-number] answers 200 and [POST /record-draw-result]
    answers 404 for the same order number. *)
Theorem field_lookup_can_miss_the_key (body : document) (w : World) (o key id : string)
    (d : document) (rest : list (string * document)) :
  prop body "orderNumber" = VStr o → doc (VStr o) = Returned key →
  truthy (prop body "drawResult") = true →
  served 1 w = true →
  store_where "orderNumber" (VStr o) (order_numbers (store w)) = (id, d) :: rest →
  hasPlayed d = false →
  order_numbers (store w) !! key = None →
  Success (post_check_order_number body w).1
  ∧ NotFound (post_record_draw_result body w).1.
Proof.
  intros Hb Hdoc Hr Hs Hq Hp Hnone.
  destruct (served_next 0 (Read orderNumbers key) w Hs) as [Hf _].
  rewrite check_run by (rewrite Hb; by eapply doc_Returned_truthy).
  rewrite (record_run body w key) by (by rewrite ?Hb). cbn zeta.
  by rewrite Hf, Hb, validate_VStr_0, Hq, Hnone; cbn [snd]; rewrite Hp.
Qed.

(** ** Two redemptions of one order in flight together *)

(** Past its input check the body of [POST /record-draw-result] is the
    program of the stages, at its [get]. *)
Lemma record_draw_result_at_get (body : document) (o : string) :
  prop body "orderNumber" = VStr o → is_document_id o = true →
  truthy (prop body "drawResult") = true →
  record_draw_result body = program o (prop body "drawResult") AtGet.
Proof.
  intros Hb Ho Hr. destruct (record_input_ok body o Hb Ho Hr) as [Hin Hdoc].
  unfold record_draw_result. by rewrite Hin, Hdoc, Hb.
Qed.

Lemma in_flight_sym (o : string) (r1 r2 : value) (s1 s2 : stage) (w : World) :
  in_flight o r1 r2 s1 s2 w → in_flight o r2 r1 s2 s1 w.
Proof.
  intros (Hrel & d & Hd & Hp & Hrec). split; [done|]. exists d. split; [done|].
  rewrite Bool.orb_comm. split.
  - destruct (past_update s1 || past_update s2); [done|]. tauto.
  - intros Hor. destruct Hrec as (rec & ? & ? & ?); [tauto|]. exists rec. tauto.
Qed.

(** One turn of the first request keeps what holds in flight. *)
Lemma resume_in_flight (o : string) (r1 r2 : value) (s1 s2 : stage) (w : World) :
  validateUserInput 1 r1 = None →
  in_flight o r1 r2 s1 s2 w →
  ∃ s1' w', resume (program o r1 s1) w = (program o r1 s1', w')
    ∧ in_flight o r1 r2 s1' s2 w'
    ∧ (steps_left s1' ≤ pred (steps_left s1))%nat.
Proof.
  intros Hvalid (Hrel & d & Hd & Hp & Hrec).
  pose proof (reliable_head w Hrel) as Hf.
  destruct s1; cbn [program resume].
  - (* at its get *)
    unfold request_get, round_trip. rewrite Hf. cbn [tick store coll].
    unfold store_get. rewrite Hd. cbn [past_update orb] in Hp.
    destruct (past_update s2) eqn:Hs2.
    + assert (hasPlayed d = true) as ->
        by (unfold hasPlayed; by rewrite (prop_lookup _ _ _ Hp)).
      exists Answered400. eexists. split; [done|]. split; [|cbn; lia].
      split; [by apply reliable_tick|]. exists d. split; [done|].
      cbn [past_update orb]. rewrite Hs2. split; [done|].
      intros [?|Hs]; [done|]. apply Hrec. by right.
    + destruct Hp as (Hp & _ & Hs400). rewrite Hp.
      exists AtUpdate. eexists. split; [done|]. split; [|cbn; lia].
      split; [by apply reliable_tick|]. exists d. split; [done|].
      cbn [past_update orb]. rewrite Hs2. split; [by repeat split|].
      intros [?|Hs]; [done|]. apply Hrec. by right.
  - (* at its update *)
    unfold request_update. rewrite validate_update_data, Hvalid.
    unfold round_trip. rewrite Hf. cbn [tick store coll].
    unfold store_update. rewrite Hd.
    exists AtSet. eexists. split; [done|]. split; [|cbn; lia].
    split; [by apply reliable_tick|]. eexists. cbn [commit store with_coll order_numbers].
    split; [apply lookup_insert_eq|]. cbn [past_update orb]. split.
    + apply marked_document.
    + intros [?|Hs]; [done|]. cbn [draw_results]. apply Hrec. by right.
  - (* at its set *)
    unfold request_set. rewrite validate_set_data, Hvalid.
    unfold round_trip. rewrite Hf. cbn [tick store coll].
    exists Answered200. eexists. split; [done|]. split; [|cbn; lia].
    split; [by apply reliable_tick|]. exists d.
    cbn [commit store with_coll order_numbers draw_results past_update orb] in *.
    split; [done|]. split; [done|]. intros _. eexists.
    split; [apply lookup_insert_eq|]. by split; [|left].
  - exists Answered200, w. split; [done|]. split; [|cbn; lia]. split; [done|]. by exists d.
  - exists Answered400, w. split; [done|]. split; [|cbn; lia]. split; [done|]. by exists d.
Qed.

(** Every schedule keeps it, and every turn of a request that has not
    answered yet brings it one store request further. *)
Lemma interleave_in_flight (o : string) (r1 r2 : value) (schedule : list turn) :
  validateUserInput 1 r1 = None →
  validateUserInput 1 r2 = None →
  ∀ (s1 s2 : stage) (w : World),
  in_flight o r1 r2 s1 s2 w →
  ∃ s1' s2' w',
    interleave schedule (program o r1 s1) (program o r2 s2) w
      = (program o r1 s1', program o r2 s2', w')
    ∧ in_flight o r1 r2 s1' s2' w'
    ∧ (steps_left s1' ≤ steps_left s1 - (turns_of schedule).1)%nat
    ∧ (steps_left s2' ≤ steps_left s2 - (turns_of schedule).2)%nat.
Proof.
  intros Hv1 Hv2.
  induction schedule as [|[] rest IH]; intros s1 s2 w Hin; cbn [interleave turns_of].
  - exists s1, s2, w. split; [done|]. split; [done|]. cbn. lia.
  - destruct (resume_in_flight o r1 r2 s1 s2 w Hv1 Hin) as (s1' & w' & -> & Hin' & Hle).
    destruct (IH s1' s2 w' Hin') as (t1 & t2 & w'' & Heq & Hin'' & H1 & H2).
    exists t1, t2, w''. destruct (turns_of rest) as [a b]. cbn [fst snd] in *.
    split; [done|]. split; [done|]. lia.
  - destruct (resume_in_flight o r2 r1 s2 s1 w Hv2 (in_flight_sym _ _ _ _ _ _ Hin))
      as (s2' & w' & -> & Hin'%in_flight_sym & Hle).
    destruct (IH s1 s2' w' Hin') as (t1 & t2 & w'' & Heq & Hin'' & H1 & H2).
    exists t1, t2, w''. destruct (turns_of rest) as [a b]. cbn [fst snd] in *.
    split; [done|]. split; [done|]. lia.
Qed.

Lemma sent_program (o : string) (r : value) (st : stage) (res : response) :
  sent (program o r st) = Some res →
  (st = Answered200 ∧ res = json 200 true (message "Draw result recorded successfully."))
  ∨ (st = Answered400
     ∧ res = json 400 false (message "You have already used your chance.")).
Proof. destruct st; cbn; intros [= <-]; auto. Qed.

Lemma sent_no_steps_left (o : string) (r : value) (st : stage) :
  steps_left st = 0%nat → is_Some (sent (program o r st)).
Proof. destruct st; cbn; try discriminate; by eexists. Qed.

(** X15.  Two redemptions of the same present, unplayed order number in flight
    together, with draw results that are non-empty strings, on a store that
    serves every request, whatever the order in which their store requests
    are served.  Neither is ever answered 404 or 500; each has answered once
    it has had three turns; and once both have answered, at least one has
    answered 200 (the other 200 too, or 400
    [You have already used your chance.]), the order has [hasPlayed = true],
    and there is exactly one draw result document for it, holding the order
    number and the draw result of one of the two requests. *)
Theorem interleaved_redemptions (schedule : list turn) (b1 b2 : document) (w : World)
    (o : string) (d : document) (prize1 prize2 : string) :
  order_record (store w) o d →
  hasPlayed d = false →
  reliable w = true →
  prop b1 "orderNumber" = VStr o → prop b1 "drawResult" = VStr prize1 → prize1 ≠ "" →
  prop b2 "orderNumber" = VStr o → prop b2 "drawResult" = VStr prize2 → prize2 ≠ "" →
  let '(p, q, w') :=
    interleave schedule (record_draw_result b1) (record_draw_result b2) w in
  (∀ res, sent p = Some res ∨ sent q = Some res → Success res ∨ AlreadyUsed res)
  ∧ ((3 ≤ (turns_of schedule).1)%nat → is_Some (sent p))
  ∧ ((3 ≤ (turns_of schedule).2)%nat → is_Some (sent q))
  ∧ ∀ res1 res2, sent p = Some res1 → sent q = Some res2 →
      (Success res1 ∨ Success res2)
      ∧ played o (store w')
      ∧ ∃ rec, records_of o (draw_results (store w')) = [rec]
          ∧ rec !! "orderNumber" = Some (VStr o)
          ∧ (rec !! "drawResult" = Some (VStr prize1)
             ∨ rec !! "drawResult" = Some (VStr prize2)).
Proof.
  intros [Ho Hd] Hp Hrel Hb1 Hr1 Hne1 Hb2 Hr2 Hne2.
  assert (truthy (prop b1 "drawResult") = true) as Ht1
    by (rewrite Hr1; by apply truthy_VStr).
  assert (truthy (prop b2 "drawResult") = true) as Ht2
    by (rewrite Hr2; by apply truthy_VStr).
  rewrite (record_draw_result_at_get b1 o Hb1 Ho Ht1),
    (record_draw_result_at_get b2 o Hb2 Ho Ht2), Hr1, Hr2.
  destruct (interleave_in_flight o (VStr prize1) (VStr prize2) schedule
              (validate_VStr_1 _) (validate_VStr_1 _) AtGet AtGet w)
    as (s1 & s2 & w' & -> & Hin & Hs1 & Hs2).
  { split; [done|]. exists d. split; [done|]. cbn. split; [done|]. by intros [|]. }
  cbn [steps_left] in Hs1, Hs2.
  split; [|split; [|split]].
  - intros res [H|H]; apply sent_program in H as [[_ ->]|[_ ->]];
      try (left; by split); right; repeat split; eauto.
  - intros Hturns. apply sent_no_steps_left. lia.
  - intros Hturns. apply sent_no_steps_left. lia.
  - intros res1 res2 H1%sent_program H2%sent_program.
    destruct Hin as (_ & d' & Hd' & Hplayed & Hrec).
    assert (s1 = Answered200 ∨ s2 = Answered200) as H200.
    { destruct H1 as [[-> _]|[-> _]]; [by left|].
      destruct H2 as [[-> _]|[-> _]]; [by right|].
      cbn in Hplayed. by destruct Hplayed as (_ & ? & _). }
    split; [|split].
    + destruct H200 as [-> | ->]; [left|right]; [destruct H1 as [[_ ->]|[? _]]
                                              |destruct H2 as [[_ ->]|[? _]]];
        try done; by split.
    + exists d'. split; [done|].
      by destruct H200 as [-> | ->]; cbn in Hplayed; rewrite ?orb_true_r in Hplayed.
    + destruct (Hrec H200) as (rec & Hlook & Hon & Hdr). exists rec.
      by rewrite records_of_lookup, Hlook.
Qed.

(** ** Redemptions of two different orders in flight together *)

(** One turn of a redemption on track keeps it on track, brings it one store
    request further, and leaves every other order as it was. *)
Lemma resume_on_track (o : string) (r : value) (st : stage) (w : World) :
  validateUserInput 1 r = None →
  reliable w = true →
  on_track o r st w →
  ∃ st' w', resume (program o r st) w = (program o r st', w')
    ∧ reliable w' = true
    ∧ on_track o r st' w'
    ∧ (steps_left st' ≤ pred (steps_left st))%nat
    ∧ ∀ id, id ≠ o →
        order_numbers (store w') !! id = order_numbers (store w) !! id
        ∧ draw_results (store w') !! id = draw_results (store w) !! id.
Proof.
  intros Hvalid Hrel (Hnot & d & Hd & Hp & Hrec).
  pose proof (reliable_head w Hrel) as Hf.
  destruct st; cbn [program resume]; [| | | |done].
  - unfold request_get, round_trip. rewrite Hf. cbn [tick store coll].
    unfold store_get. rewrite Hd. cbn [past_update] in Hp. rewrite Hp.
    exists AtUpdate. eexists. split; [done|]. split; [by apply reliable_tick|].
    split; [|split; [cbn; lia | done]].
    split; [done|]. exists d. by repeat split.
  - unfold request_update. rewrite validate_update_data, Hvalid.
    unfold round_trip. rewrite Hf. cbn [tick store coll].
    unfold store_update. rewrite Hd.
    exists AtSet. eexists. split; [done|]. split; [by apply reliable_tick|].
    cbn [commit store with_coll order_numbers draw_results].
    split; [|split; [cbn; lia|]].
    + split; [done|]. eexists. split; [apply lookup_insert_eq|].
      cbn [past_update]. split; [|done]. split; apply marked_document.
    + intros id Hne. by rewrite lookup_insert_ne.
  - unfold request_set. rewrite validate_set_data, Hvalid.
    unfold round_trip, store_set. rewrite Hf. cbn [tick store coll].
    exists Answered200. eexists. split; [done|]. split; [by apply reliable_tick|].
    cbn [commit store with_coll order_numbers draw_results].
    split; [|split; [cbn; lia|]].
    + split; [done|]. exists d. split; [done|]. split; [done|]. intros _.
      eexists. split; [apply lookup_insert_eq|]. done.
    + intros id Hne. by rewrite lookup_insert_ne.
  - exists Answered200, w. split; [done|]. split; [done|].
    split; [|split; [cbn; lia | done]]. split; [done|]. by exists d.
Qed.

Lemma on_track_frame (o : string) (r : value) (st : stage) (w w' : World) :
  order_numbers (store w') !! o = order_numbers (store w) !! o →
  draw_results (store w') !! o = draw_results (store w) !! o →
  on_track o r st w → on_track o r st w'.
Proof.
  intros Ho Hdr (Hnot & d & Hd & Hp & Hrec). split; [done|]. exists d.
  rewrite Ho, Hdr. done.
Qed.

Lemma interleave_on_track (o1 o2 : string) (r1 r2 : value) (schedule : list turn) :
  o1 ≠ o2 →
  validateUserInput 1 r1 = None →
  validateUserInput 1 r2 = None →
  ∀ (s1 s2 : stage) (w : World),
  reliable w = true →
  on_track o1 r1 s1 w →
  on_track o2 r2 s2 w →
  ∃ s1' s2' w',
    interleave schedule (program o1 r1 s1) (program o2 r2 s2) w
      = (program o1 r1 s1', program o2 r2 s2', w')
    ∧ on_track o1 r1 s1' w'
    ∧ on_track o2 r2 s2' w'
    ∧ (steps_left s1' ≤ steps_left s1 - (turns_of schedule).1)%nat
    ∧ (steps_left s2' ≤ steps_left s2 - (turns_of schedule).2)%nat.
Proof.
  intros Hne Hv1 Hv2.
  induction schedule as [|[] rest IH]; intros s1 s2 w Hrel H1 H2;
    cbn [interleave turns_of].
  - exists s1, s2, w. split; [done|]. split; [done|]. split; [done|]. cbn. lia.
  - destruct (resume_on_track o1 r1 s1 w Hv1 Hrel H1)
      as (s1' & w' & -> & Hrel' & H1' & Hle & Hframe).
    destruct (Hframe o2) as [Ho Hdr]; [done|].
    destruct (IH s1' s2 w' Hrel' H1' (on_track_frame _ _ _ _ _ Ho Hdr H2))
      as (t1 & t2 & w'' & Heq & ? & ? & ? & ?).
    exists t1, t2, w''. destruct (turns_of rest) as [a b]. cbn [fst snd] in *.
    split; [done|]. split; [done|]. split; [done|]. lia.
  - destruct (resume_on_track o2 r2 s2 w Hv2 Hrel H2)
      as (s2' & w' & -> & Hrel' & H2' & Hle & Hframe).
    destruct (Hframe o1) as [Ho Hdr]; [done|].
    destruct (IH s1 s2' w' Hrel' (on_track_frame _ _ _ _ _ Ho Hdr H1) H2')
      as (t1 & t2 & w'' & Heq & ? & ? & ? & ?).
    exists t1, t2, w''. destruct (turns_of rest) as [a b]. cbn [fst snd] in *.
    split; [done|]. split; [done|]. split; [done|]. lia.
Qed.

(** X16.  Redemptions of two different present, unplayed order numbers in
    flight together, with draw results that are non-empty strings, on a
    store that serves every request, do not disturb each other, whatever
    the order in which their store requests are served: each has answered
    once it has had three turns, its answer is 200, and from then on its
    order has [hasPlayed = true] with its own draw result and exactly one
    draw result document, with its own order number and draw result. *)
Theorem interleaved_redemptions_of_two_orders (schedule : list turn) (b1 b2 : document)
    (w : World) (o1 o2 : string) (d1 d2 : document) (prize1 prize2 : string) :
  o1 ≠ o2 →
  order_record (store w) o1 d1 → hasPlayed d1 = false →
  order_record (store w) o2 d2 → hasPlayed d2 = false →
  reliable w = true →
  prop b1 "orderNumber" = VStr o1 → prop b1 "drawResult" = VStr prize1 → prize1 ≠ "" →
  prop b2 "orderNumber" = VStr o2 → prop b2 "drawResult" = VStr prize2 → prize2 ≠ "" →
  let redeemed o r s :=
    ∃ d rec, order_numbers s !! o = Some d
      ∧ d !! "hasPlayed" = Some (VBool true) ∧ d !! "drawResult" = Some r
      ∧ records_of o (draw_results s) = [rec]
      ∧ rec !! "orderNumber" = Some (VStr o) ∧ rec !! "drawResult" = Some r in
  let '(p, q, w') :=
    interleave schedule (record_draw_result b1) (record_draw_result b2) w in
  ((3 ≤ (turns_of schedule).1)%nat → is_Some (sent p))
  ∧ ((3 ≤ (turns_of schedule).2)%nat → is_Some (sent q))
  ∧ (∀ res, sent p = Some res →
       res = json 200 true (message "Draw result recorded successfully.")
       ∧ redeemed o1 (VStr prize1) (store w'))
  ∧ (∀ res, sent q = Some res →
       res = json 200 true (message "Draw result recorded successfully.")
       ∧ redeemed o2 (VStr prize2) (store w')).
Proof.
  intros Hne [Ho1 Hd1] Hp1 [Ho2 Hd2] Hp2 Hrel Hb1 Hr1 Hne1 Hb2 Hr2 Hne2. cbn zeta.
  assert (truthy (prop b1 "drawResult") = true) as Ht1
    by (rewrite Hr1; by apply truthy_VStr).
  assert (truthy (prop b2 "drawResult") = true) as Ht2
    by (rewrite Hr2; by apply truthy_VStr).
  rewrite (record_draw_result_at_get b1 o1 Hb1 Ho1 Ht1),
    (record_draw_result_at_get b2 o2 Hb2 Ho2 Ht2), Hr1, Hr2.
  destruct (interleave_on_track o1 o2 (VStr prize1) (VStr prize2) schedule Hne
              (validate_VStr_1 _) (validate_VStr_1 _) AtGet AtGet w Hrel)
    as (s1 & s2 & w' & -> & H1 & H2 & Hs1 & Hs2).
  { split; [done|]. exists d1. by repeat split. }
  { split; [done|]. exists d2. by repeat split. }
  cbn [steps_left] in Hs1, Hs2.
  assert (∀ o r st res, on_track o r st w' → sent (program o r st) = Some res →
    res = json 200 true (message "Draw result recorded successfully.")
    ∧ ∃ d rec, order_numbers (store w') !! o = Some d
        ∧ d !! "hasPlayed" = Some (VBool true) ∧ d !! "drawResult" = Some r
        ∧ records_of o (draw_results (store w')) = [rec]
        ∧ rec !! "orderNumber" = Some (VStr o) ∧ rec !! "drawResult" = Some r) as Hdone.
  { intros o r st res (Hnot & d & Hd & Hp & Hrec) [[-> ->]|[-> _]]%sent_program; [|done].
    split; [done|]. destruct Hrec as (rec & Hlook & ? & ?); [done|].
    exists d, rec. cbn in Hp. rewrite records_of_lookup, Hlook. by destruct Hp. }
  split; [|split; [|split]].
  - intros Hturns. apply sent_no_steps_left. lia.
  - intros Hturns. apply sent_no_steps_left. lia.
  - intros res. by apply Hdone.
  - intros res. by apply Hdone.
Qed.


(** ** The further properties on the example campaigns *)

Lemma after_PRIZE1_invariant : invariant (store after_PRIZE1).
Proof. apply invariantb_spec. evaluate. Defined.

Lemma absent_order_is_not_found_witness :
  served 1 calm = true
  ∧ (post_check_order_number redeem_Z9 calm).1
    = json 404 false (message
        "Please input a qualified order number. Contact your sales representative for more information.")
  ∧ (post_check_order_number {[ "orderNumber" := VNum 7 ]} calm).1
    = json 404 false (message
        "Please input a qualified order number. Contact your sales representative for more information.")
  ∧ (post_record_draw_result redeem_Z9 calm).1
    = json 404 false (message "Order number does not exist.").
Proof.
  assert (served 1 calm = true) as Hs by evaluate.
  split; [exact Hs|]. split; [|split].
  - apply (absent_order_is_not_found redeem_Z9 calm Hs);
      [exact campaign_is_keyed|evaluate|evaluate|].
    intros o Ho _. assert (prop redeem_Z9 "orderNumber" = VStr "Z9") as Hz by evaluate.
    rewrite Hz in Ho. injection Ho as <-. evaluate.
  - apply (absent_order_is_not_found {[ "orderNumber" := VNum 7 ]} calm Hs);
      [exact campaign_is_keyed|evaluate|evaluate|].
    intros o Ho _.
    assert (prop ({[ "orderNumber" := VNum 7 ]} : document) "orderNumber" = VNum 7) as Hz
      by evaluate.
    rewrite Hz in Ho. discriminate.
  - destruct (absent_order_is_not_found redeem_Z9 calm Hs) as [_ Hrecord].
    rewrite (Hrecord "Z9"); [reflexivity|evaluate|evaluate|evaluate].
Defined.

Lemma internal_error_has_a_cause_witness :
  status (post_check_order_number (redeem_A100 "PRIZE1") first_rejected).1 = 500
  ∧ (post_check_order_number (redeem_A100 "PRIZE1") first_rejected).1
    = json 500 false (error "UNAVAILABLE").
Proof.
  assert (status (post_check_order_number (redeem_A100 "PRIZE1") first_rejected).1 = 500)
    as Hst by evaluate.
  split; [exact Hst|].
  destruct (internal_error_has_a_cause (redeem_A100 "PRIZE1") first_rejected) as [Hcheck _].
  destruct (Hcheck Hst) as (msg & -> & [Hmsg|Hmsg]).
  - vm_compute in Hmsg. discriminate.
  - vm_compute in Hmsg. by injection Hmsg as <-.
Defined.

Lemma record_leaves_other_orders_witness :
  doc (prop (redeem_A100 "PRIZE1") "orderNumber") ≠ Returned "B200"
  ∧ order_numbers (store (post_record_draw_result (redeem_A100 "PRIZE1") two_orders).2)
      !! "B200"
    = Some order_B200.
Proof.
  assert (doc (prop (redeem_A100 "PRIZE1") "orderNumber") ≠ Returned "B200") as Hne
    by (intros H; vm_compute in H; discriminate).
  split; [exact Hne|].
  destruct (record_leaves_other_orders (redeem_A100 "PRIZE1") two_orders "B200" Hne)
    as [-> _].
  evaluate.
Defined.

Lemma draw_results_are_immutable_witness :
  invariant (store after_PRIZE1)
  ∧ draw_results (store (post_record_draw_result (redeem_A100 "PRIZE2") after_PRIZE1).2)
      !! "A100"
    = Some {[ "orderNumber" := VStr "A100"; "drawResult" := VStr "PRIZE1";
              "timestamp" := VTimestamp 2 ]}.
Proof.
  split; [exact after_PRIZE1_invariant|].
  apply (draw_results_are_immutable (redeem_A100 "PRIZE2") after_PRIZE1 "A100" _
           after_PRIZE1_invariant).
  evaluate.
Defined.

Lemma record_keeps_keyed_witness :
  keyed_by_order_number (order_numbers (store calm)) = true
  ∧ keyed_by_order_number (order_numbers (store after_PRIZE1)) = true
  ∧ keyed_by_order_number (draw_results (store after_PRIZE1)) = true.
Proof.
  destruct (record_keeps_keyed (redeem_A100 "PRIZE1") calm) as [Horders Hdraws].
  split; [exact campaign_is_keyed|]. split.
  - exact (Horders campaign_is_keyed).
  - apply Hdraws; [|evaluate].
    intros path Hb. rewrite redeem_A100_order in Hb. injection Hb as <-. evaluate.
Defined.

Lemma check_is_repeatable_witness :
  served 2 calm = true
  ∧ (post_check_order_number (redeem_A100 "PRIZE1")
       (post_check_order_number (redeem_A100 "PRIZE1") calm).2).1
    = (post_check_order_number (redeem_A100 "PRIZE1") calm).1.
Proof.
  assert (served 2 calm = true) as Hs by evaluate.
  split; [exact Hs|]. exact (check_is_repeatable (redeem_A100 "PRIZE1") calm Hs).
Defined.

Lemma check_A100_succeeds :
  Success (post_check_order_number {[ "orderNumber" := VStr "A100" ]} calm).1.
Proof. split; evaluate. Defined.

Lemma check_then_record_witness :
  keyed_by_order_number (order_numbers (store calm)) = true
  ∧ Success (post_check_order_number {[ "orderNumber" := VStr "A100" ]} calm).1
  ∧ (post_record_draw_result (redeem_A100 "PRIZE1")
       (post_check_order_number {[ "orderNumber" := VStr "A100" ]} calm).2).1
    = json 200 true (message "Draw result recorded successfully.").
Proof.
  split; [exact campaign_is_keyed|]. split; [exact check_A100_succeeds|].
  apply (check_then_record {[ "orderNumber" := VStr "A100" ]} (redeem_A100 "PRIZE1") calm
           "PRIZE1" campaign_is_keyed check_A100_succeeds);
    [evaluate|evaluate|discriminate|evaluate].
Defined.

Lemma record_then_check_witness :
  keyed_by_order_number (order_numbers (store calm)) = true
  ∧ Success (post_record_draw_result (redeem_A100 "PRIZE1") calm).1
  ∧ contains_slash "A100" = false
  ∧ (post_check_order_number {[ "orderNumber" := VStr "A100" ]} after_PRIZE1).1
    = json 400 false (message "You have used your chance.").
Proof.
  split; [exact campaign_is_keyed|]. split; [exact record_A100_succeeds|].
  split; [evaluate|].
  apply (record_then_check (redeem_A100 "PRIZE1") {[ "orderNumber" := VStr "A100" ]} calm
           "A100" campaign_is_keyed record_A100_succeeds); evaluate.
Defined.

Lemma field_lookup_can_miss_the_key_witness :
  store_where "orderNumber" (VStr "A100") (order_numbers (store mislabelled))
    = [("doc1", {[ "orderNumber" := VStr "A100"; "hasPlayed" := VBool false ]})]
  ∧ doc (VStr "A100") = Returned "A100"
  ∧ order_numbers (store mislabelled) !! "A100" = None
  ∧ Success (post_check_order_number (redeem_A100 "PRIZE1") mislabelled).1
  ∧ NotFound (post_record_draw_result (redeem_A100 "PRIZE1") mislabelled).1.
Proof.
  assert (store_where "orderNumber" (VStr "A100") (order_numbers (store mislabelled))
    = [("doc1", {[ "orderNumber" := VStr "A100"; "hasPlayed" := VBool false ]})]) as Hq
    by evaluate.
  assert (doc (VStr "A100") = Returned "A100") as Hdoc by evaluate.
  assert (order_numbers (store mislabelled) !! "A100" = None) as Hnone by evaluate.
  split; [exact Hq|]. split; [exact Hdoc|]. split; [exact Hnone|].
  apply (field_lookup_can_miss_the_key (redeem_A100 "PRIZE1") mislabelled "A100" "A100"
           "doc1" {[ "orderNumber" := VStr "A100"; "hasPlayed" := VBool false ]} []
           (redeem_A100_order _) Hdoc); [evaluate|evaluate|exact Hq|evaluate|exact Hnone].
Defined.

Lemma calm_is_reliable : reliable calm = true.
Proof. evaluate. Defined.

Lemma interleaved_redemptions_witness :
  order_record (store calm) "A100" order_A100
  ∧ reliable calm = true
  ∧ ∃ rec,
      records_of "A100"
        (draw_results (store
           (interleave [turn_b; turn_a; turn_a; turn_b; turn_b; turn_a]
              (record_draw_result (redeem_A100 "PRIZE1"))
              (record_draw_result (redeem_A100 "PRIZE2")) calm).2))
      = [rec].
Proof.
  split; [exact A100_is_an_order|]. split; [exact calm_is_reliable|].
  assert ("PRIZE1" ≠ "") as Hne1 by discriminate.
  assert ("PRIZE2" ≠ "") as Hne2 by discriminate.
  pose proof (interleaved_redemptions [turn_b; turn_a; turn_a; turn_b; turn_b; turn_a]
    (redeem_A100 "PRIZE1") (redeem_A100 "PRIZE2") calm "A100" order_A100
    "PRIZE1" "PRIZE2" A100_is_an_order A100_is_not_played calm_is_reliable
    (redeem_A100_order _) (redeem_A100_result _) Hne1
    (redeem_A100_order _) (redeem_A100_result _) Hne2) as H.
  destruct (interleave _ _ _ calm) as [[p q] w'].
  destruct H as (_ & Hp & Hq & Hboth).
  destruct Hp as [res1 H1]; [cbn; lia|]. destruct Hq as [res2 H2]; [cbn; lia|].
  destruct (Hboth res1 res2 H1 H2) as (_ & _ & rec & Hrec & _).
  exists rec. exact Hrec.
Defined.

Lemma two_orders_A100 : order_record (store two_orders) "A100" order_A100.
Proof. split; evaluate. Defined.

Lemma two_orders_B200 : order_record (store two_orders) "B200" order_B200.
Proof. split; evaluate. Defined.

Lemma interleaved_redemptions_of_two_orders_witness :
  order_record (store two_orders) "A100" order_A100
  ∧ order_record (store two_orders) "B200" order_B200
  ∧ reliable two_orders = true
  ∧ (let '(p, q, w') :=
       interleave [turn_a; turn_b; turn_b; turn_a; turn_b; turn_a]
         (record_draw_result (redeem_A100 "PRIZE1"))
         (record_draw_result (redeem_B200 "PRIZE2")) two_orders in
     is_Some (sent p) ∧ is_Some (sent q)).
Proof.
  split; [exact two_orders_A100|]. split; [exact two_orders_B200|].
  assert (reliable two_orders = true) as Hrel by evaluate.
  split; [exact Hrel|].
  assert ("A100" ≠ "B200") as Hne by discriminate.
  assert (hasPlayed order_B200 = false) as Hp2 by evaluate.
  assert (prop (redeem_B200 "PRIZE2") "orderNumber" = VStr "B200") as Hb2 by evaluate.
  assert (prop (redeem_B200 "PRIZE2") "drawResult" = VStr "PRIZE2") as Hr2 by evaluate.
  assert ("PRIZE1" ≠ "") as Hne1 by discriminate.
  assert ("PRIZE2" ≠ "") as Hne2 by discriminate.
  pose proof (interleaved_redemptions_of_two_orders
    [turn_a; turn_b; turn_b; turn_a; turn_b; turn_a]
    (redeem_A100 "PRIZE1") (redeem_B200 "PRIZE2") two_orders "A100" "B200"
    order_A100 order_B200 "PRIZE1" "PRIZE2" Hne two_orders_A100 A100_is_not_played
    two_orders_B200 Hp2 Hrel
    (redeem_A100_order _) (redeem_A100_result _) Hne1 Hb2 Hr2 Hne2) as H.
  cbn zeta in H. destruct (interleave _ _ _ two_orders) as [[p q] w'].
  destruct H as (Hp & Hq & _). split; [apply Hp | apply Hq]; cbn; lia.
Defined.

